(** * HTML query and extraction helpers of the scraping examples

    A shallow embedding of the pure extraction functions of
    [examples/01_basic_scraping.py] .. [examples/05_advanced_techniques.py]
    together with the parts of BeautifulSoup and [urllib.parse] they call.

    Conventions of the embedding.
    - A Python [str] is the [string] of the bytes of its UTF-8 encoding.
      [str.strip] removes the whitespace characters of Unicode, each in
      its encoding.  [str.lower] on a text that is not ASCII, the address
      parser [ipaddress.ip_address] and the normalisation test of
      [_checknetloc] rest on tables that are not part of these sources:
      they are the fields of a [Library], and every definition and
      theorem that depends on them holds for every [Library].
    - A call that raises [ValueError] has the result [ValueError]; a call
      that returns [x] has the result [Ok x].
    - A parsed document or tag is a [Node]; a tag's attribute dictionary is
      a [gmap string string] (the attributes read by the examples, [href],
      [name], [property], [content], are single-valued).
    - A Python [for] loop that appends to a list is a [fold_left] whose
      accumulator is extended at its end; a comprehension is a [map] over a
      [filter].
    - [urljoin] and [urlparse] follow [urllib/parse.py], with the
      [ValueError] it raises for a malformed bracketed network location
      or for one that is unsafe under normalisation. *)

From Stdlib Require Import Ascii.
From stdpp Require Import base option list strings gmap pretty.

Local Open Scope string_scope.

(** ** Results and the tables of the Python library *)

(** What a call that may raise [ValueError] gives. *)
Inductive Result (A : Type) : Type :=
| Ok (x : A)
| ValueError.
Arguments Ok {A} x.
Arguments ValueError {A}.

#[global] Instance Result_ret : MRet Result := @Ok.

#[global] Instance Result_bind : MBind Result :=
  fun A B f m => match m with Ok x => f x | ValueError => ValueError end.

(** The parts of the Python library that rest on tables outside these
    sources. *)
Class Library := {
  (** [s.lower()] for a text [s] that is not ASCII: the case mapping of
      the Unicode database. *)
  unicode_lower : string -> string;
  (** [ipaddress.ip_address(s)] returns an [IPv6Address]; otherwise it
      returns an [IPv4Address] or raises [ValueError]. *)
  ipv6_address : string -> bool;
  (** [_checknetloc(netloc)] returns for a [netloc] that is not ASCII: its
      NFKC normal form, taken without the characters [@:#?], is the text
      itself or holds none of [/?#@:]. *)
  nfkc_safe : string -> bool
}.

(** ** Python string primitives *)

Module PyStr.

(** The ASCII whitespace characters, TAB..CR, FS..US and the space: the
    whitespace of the selector grammar and of the whitespace-separated
    words of an attribute. *)
Definition is_ascii_space (c : ascii) : bool :=
  let n := nat_of_ascii c in
  ((9 <=? n)%nat && (n <=? 13)%nat) || ((28 <=? n)%nat && (n <=? 32)%nat).

(** [bool(s)]: a string is true when it is not empty. *)
Definition truthy (s : string) : bool :=
  match s with EmptyString => false | String _ _ => true end.

(** [s.lstrip(chars)] and [s.rstrip(chars)], the set [chars] given by its
    membership test. *)
Fixpoint lstrip_chars (p : ascii -> bool) (s : string) : string :=
  match s with
  | EmptyString => EmptyString
  | String c s' => if p c then lstrip_chars p s' else s
  end.

Fixpoint rstrip_chars (p : ascii -> bool) (s : string) : string :=
  match s with
  | EmptyString => EmptyString
  | String c s' =>
      let r := rstrip_chars p s' in
      if p c && negb (truthy r) then EmptyString else String c r
  end.

Definition strip_chars (p : ascii -> bool) (s : string) : string :=
  rstrip_chars p (lstrip_chars p s).

(** [s[n:]] *)
Fixpoint drop_chars (n : nat) (s : string) : string :=
  match n, s with
  | S n', String _ s' => drop_chars n' s'
  | _, _ => s
  end.

(** [s[:n]] *)
Fixpoint take_chars (n : nat) (s : string) : string :=
  match n, s with
  | S n', String c s' => String c (take_chars n' s')
  | _, _ => ""
  end.

(** The UTF-8 encoding of the character with the code point [n]. *)
Definition utf8 (n : N) : string :=
  let byte k := String (ascii_of_N k) "" in
  let tail k := byte (0x80 + k mod 0x40)%N in
  if (n <? 0x80)%N then byte n
  else if (n <? 0x800)%N then byte (0xC0 + n / 0x40)%N +:+ tail n
  else if (n <? 0x10000)%N
  then byte (0xE0 + n / 0x1000)%N +:+ tail (n / 0x40)%N +:+ tail n
  else byte (0xF0 + n / 0x40000)%N +:+ tail (n / 0x1000)%N
       +:+ tail (n / 0x40)%N +:+ tail n.

(** The encoding of a text given by its characters. *)
Fixpoint encode (l : list N) : string :=
  match l with
  | [] => ""
  | n :: l' => utf8 n +:+ encode l'
  end.

(** The characters [c] with [c.isspace()], the ones [str.strip] removes:
    TAB..CR, FS..US, the space, NEL, the no-break space, the Ogham space
    mark, EN QUAD..HAIR SPACE, the line and the paragraph separator, the
    narrow no-break space, the medium mathematical space and the
    ideographic space. *)
Definition whitespace : list N :=
  [0x09; 0x0A; 0x0B; 0x0C; 0x0D; 0x1C; 0x1D; 0x1E; 0x1F; 0x20; 0x85; 0xA0;
   0x1680; 0x2000; 0x2001; 0x2002; 0x2003; 0x2004; 0x2005; 0x2006; 0x2007;
   0x2008; 0x2009; 0x200A; 0x2028; 0x2029; 0x202F; 0x205F; 0x3000]%N.

Definition whitespace_utf8 : list string := map utf8 whitespace.

(** The no-break space, [&nbsp;] in a page. *)
Definition nbsp : string := utf8 0xA0.

(** The number of bytes of the whitespace character [s] starts with, or
    [0] when it starts with none; a whitespace character takes one to
    three bytes. *)
Definition space_len (s : string) : nat :=
  if bool_decide (take_chars 1 s ∈ whitespace_utf8) then 1
  else if bool_decide (take_chars 2 s ∈ whitespace_utf8) then 2
  else if bool_decide (take_chars 3 s ∈ whitespace_utf8) then 3
  else 0.

(** [s.lstrip()]: the loop that steps over the leading whitespace; it
    takes one turn for a character, so at most [len(s)] turns. *)
Fixpoint lstrip_from (turns : nat) (s : string) : string :=
  match turns with
  | 0 => s
  | S turns =>
      match space_len s with
      | 0 => s
      | n => lstrip_from turns (drop_chars n s)
      end
  end.

Definition lstrip (s : string) : string := lstrip_from (String.length s) s.

(** [not s.lstrip()]: the text is empty or whitespace only. *)
Definition is_blank (s : string) : bool := negb (truthy (lstrip s)).

(** [s.rstrip()]: the text up to its last character that is not
    whitespace. *)
Fixpoint rstrip (s : string) : string :=
  match s with
  | EmptyString => EmptyString
  | String c s' => if is_blank s then EmptyString else String c (rstrip s')
  end.

(** [s.strip()] *)
Definition strip (s : string) : string := rstrip (lstrip s).

Definition lower_char (c : ascii) : ascii :=
  let n := nat_of_ascii c in
  if (65 <=? n)%nat && (n <=? 90)%nat then ascii_of_nat (n + 32) else c.

(** [s.lower()] for an ASCII text: [A]..[Z] go to [a]..[z]. *)
Fixpoint ascii_lower (s : string) : string :=
  match s with
  | EmptyString => EmptyString
  | String c s' => String (lower_char c) (ascii_lower s')
  end.

(** [sep.join(parts)] *)
Fixpoint join (sep : string) (parts : list string) : string :=
  match parts with
  | [] => ""
  | [p] => p
  | p :: ps => p +:+ sep +:+ join sep ps
  end.

(** [s.split(sep)] for a one-character separator: never the empty list. *)
Fixpoint split (sep : ascii) (s : string) : list string :=
  match s with
  | EmptyString => [""]
  | String c s' =>
      if Ascii.eqb c sep then "" :: split sep s'
      else match split sep s' with
           | [] => [String c ""]
           | w :: ws => String c w :: ws
           end
  end.

(** [s.partition(sep)] restricted to what the callers use: the text before
    the first [sep] and the text after it, or [None] when [sep in s] is
    false. *)
Fixpoint cut (sep : ascii) (s : string) : option (string * string) :=
  match s with
  | EmptyString => None
  | String c s' =>
      if Ascii.eqb c sep then Some ("", s')
      else match cut sep s' with
           | Some (a, b) => Some (String c a, b)
           | None => None
           end
  end.

(** [s.replace(c, "")] *)
Fixpoint remove (c : ascii) (s : string) : string :=
  match s with
  | EmptyString => EmptyString
  | String d s' => if Ascii.eqb d c then remove c s' else String d (remove c s')
  end.

(** [s[:len(p)] == p] *)
Definition starts_with (p s : string) : bool := String.prefix p s.

(** [c in s] *)
Definition contains (c : ascii) (s : string) : bool :=
  match cut c s with Some _ => true | None => false end.

(** The text before the first character of the class [p] and the text
    from that character on. *)
Fixpoint break_at (p : ascii -> bool) (s : string) : string * string :=
  match s with
  | EmptyString => ("", "")
  | String c s' =>
      if p c then ("", s)
      else let '(a, b) := break_at p s' in (String c a, b)
  end.

(** The text before the last [sep] and the text from that [sep] on, or
    [None] when [sep in s] is false ([s.rfind(sep)]). *)
Fixpoint rcut (sep : ascii) (s : string) : option (string * string) :=
  match s with
  | EmptyString => None
  | String c s' =>
      match rcut sep s' with
      | Some (a, b) => Some (String c a, b)
      | None => if Ascii.eqb c sep then Some ("", s) else None
      end
  end.

Fixpoint all_chars (p : ascii -> bool) (s : string) : bool :=
  match s with
  | EmptyString => true
  | String c s' => p c && all_chars p s'
  end.

(** [s.isascii()] *)
Definition isascii (s : string) : bool :=
  all_chars (fun c => (nat_of_ascii c <? 128)%nat) s.

(** [s.lower()] *)
Definition lower `{!Library} (s : string) : string :=
  if isascii s then ascii_lower s else unicode_lower s.

(** The whitespace-separated words of a text: the maximal runs of
    characters that are not ASCII whitespace; [cur] is the run being
    read. *)
Fixpoint words_from (cur s : string) : list string :=
  match s with
  | EmptyString => if truthy cur then [cur] else []
  | String c s' =>
      if is_ascii_space c
      then (if truthy cur then cur :: words_from "" s' else words_from "" s')
      else words_from (cur +:+ String c "") s'
  end.

Definition words (s : string) : list string := words_from "" s.

(** The text after the last [sep], or the whole text when [sep in s] is
    false ([s.rpartition(sep)[2]]). *)
Definition after_last (sep : ascii) (s : string) : string :=
  match rcut sep s with
  | Some (_, String _ after) => after
  | _ => s
  end.

End PyStr.

(** ** The parsed tree *)

(** A node of the tree BeautifulSoup builds.  [Text] stands for the strings
    that [.text] collects ([NavigableString], [CData]); [Comment] for the
    string kinds it leaves out (comments, declarations, doctype). *)
#[local] Unset Elimination Schemes.
Inductive Node : Type :=
| Text (s : string)
| Comment (s : string)
| Element (name : string) (attrs : gmap string string) (contents : list Node).
#[local] Set Elimination Schemes.

Section Node_induction.
Variable P : Node -> Prop.
Hypothesis HText : forall s, P (Text s).
Hypothesis HComment : forall s, P (Comment s).
Hypothesis HElement :
  forall name attrs contents, Forall P contents -> P (Element name attrs contents).

Fixpoint Node_ind (n : Node) : P n :=
  match n with
  | Text s => HText s
  | Comment s => HComment s
  | Element name attrs contents =>
      HElement name attrs contents
        ((fix children (l : list Node) : Forall P l :=
            match l with
            | [] => @List.Forall_nil Node P
            | c :: l' => @List.Forall_cons Node P c l' (Node_ind c) (children l')
            end) contents)
  end.
End Node_induction.

Module Soup.

(** [tag.text]: the concatenation of the strings below the tag. *)
Fixpoint text (n : Node) : string :=
  match n with
  | Text s => s
  | Comment _ => ""
  | Element _ _ contents => PyStr.join "" (map text contents)
  end.

(** [tag.descendants]: every node below the tag, in document order. *)
Fixpoint descendants (n : Node) : list Node :=
  match n with
  | Element _ _ contents => flat_map (fun c => c :: descendants c) contents
  | _ => []
  end.

(** The name test of [find_all]: a tag whose name is one of [names]. *)
Definition has_name (names : list string) (n : Node) : bool :=
  match n with
  | Element name _ _ => bool_decide (name ∈ names)
  | _ => false
  end.

Definition is_element (n : Node) : bool :=
  match n with Element _ _ _ => true | _ => false end.

(** [tag.find_all(names)] *)
Definition find_all (names : list string) (n : Node) : list Node :=
  filter (fun d => has_name names d = true) (descendants n).

(** [tag.find(name)]: the first match, or [None]. *)
Definition find (name : string) (n : Node) : option Node :=
  head (find_all [name] n).

(** [tag.get(key)] *)
Definition get (n : Node) (key : string) : option string :=
  match n with
  | Element _ attrs _ => attrs !! key
  | _ => None
  end.

(** [tag.get(key, dflt)] *)
Definition get_default (n : Node) (key dflt : string) : string :=
  default dflt (get n key).

End Soup.

(** ** [urllib.parse] *)

Module UrlLib.
Import PyStr.

Definition uses_relative : list string :=
  [""; "ftp"; "http"; "gopher"; "nntp"; "imap"; "wais"; "file"; "https";
   "shttp"; "mms"; "prospero"; "rtsp"; "rtspu"; "sftp"; "svn"; "svn+ssh";
   "ws"; "wss"].

Definition uses_netloc : list string :=
  [""; "ftp"; "http"; "gopher"; "nntp"; "telnet"; "imap"; "wais"; "file";
   "mms"; "https"; "shttp"; "snews"; "prospero"; "rtsp"; "rtspu"; "rsync";
   "svn"; "svn+ssh"; "sftp"; "nfs"; "git"; "git+ssh"; "ws"; "wss"].

Definition uses_params : list string :=
  [""; "ftp"; "hdl"; "prospero"; "http"; "imap"; "https"; "shttp"; "rtsp";
   "rtspu"; "sip"; "sips"; "mms"; "sftp"; "tel"].

Definition among (s : string) (l : list string) : bool := bool_decide (s ∈ l).

Definition between (lo hi : nat) (c : ascii) : bool :=
  let n := nat_of_ascii c in ((lo <=? n)%nat && (n <=? hi)%nat).

Definition is_ascii_alpha (c : ascii) : bool := between 65 90 c || between 97 122 c.

(** [c in scheme_chars] *)
Definition is_scheme_char (c : ascii) : bool :=
  is_ascii_alpha c || between 48 57 c
  || Ascii.eqb c "+" || Ascii.eqb c "-" || Ascii.eqb c ".".

(** [c in _WHATWG_C0_CONTROL_OR_SPACE] *)
Definition is_c0_control_or_space (c : ascii) : bool := between 0 32 c.

(** The loop over [_UNSAFE_URL_BYTES_TO_REMOVE]. *)
Definition remove_unsafe (s : string) : string :=
  remove "010" (remove "013" (remove "009" s)).

Definition is_netloc_delim (c : ascii) : bool :=
  Ascii.eqb c "/" || Ascii.eqb c "?" || Ascii.eqb c "#".

(** [_splitnetloc(url, 2)] *)
Definition splitnetloc (url : string) : string * string :=
  break_at is_netloc_delim (drop_chars 2 url).

Record ParseResult := {
  scheme : string;
  netloc : string;
  path : string;
  params : string;
  query : string;
  fragment : string
}.

Definition is_hex_digit (c : ascii) : bool :=
  between 48 57 c || between 65 70 c || between 97 102 c.

(** [re.match(r"\Av[a-fA-F0-9]+\..+\Z", hostname)]: a [v], hexadecimal
    digits, a dot and a text without a line feed, none of them empty. *)
Definition ipvfuture (hostname : string) : bool :=
  match hostname with
  | String "v" rest =>
      let '(digits, rest) := break_at (fun c => negb (is_hex_digit c)) rest in
      match rest with
      | String "." rest => truthy digits && truthy rest && negb (contains "010" rest)
      | _ => false
      end
  | _ => false
  end.

(** [_splitparams(url)], called when [';' in url]. *)
Definition splitparams (url : string) : string * string :=
  match rcut "/" url with
  | Some (dir, leaf) =>
      match cut ";" leaf with
      | Some (a, b) => (dir +:+ a, b)
      | None => (url, "")
      end
  | None =>
      match cut ";" url with
      | Some (a, b) => (a, b)
      | None => (url, "")
      end
  end.

Section parsing.
Context `{!Library}.

(** [_check_bracketed_host(hostname)] returns. *)
Definition check_bracketed_host (hostname : string) : bool :=
  if starts_with "v" hostname then ipvfuture hostname
  else ipv6_address hostname.

(** [_check_bracketed_netloc(netloc)] returns. *)
Definition check_bracketed_netloc (netloc : string) : bool :=
  let hostname_and_port := after_last "@" netloc in
  match cut "[" hostname_and_port with
  | Some (before_bracket, bracketed) =>
      if truthy before_bracket then false
      else
        let '(hostname, port) :=
          match cut "]" bracketed with
          | Some (a, b) => (a, b)
          | None => (bracketed, "")
          end in
        if truthy port && negb (starts_with ":" port) then false
        else check_bracketed_host hostname
  | None =>
      let hostname :=
        match cut ":" hostname_and_port with
        | Some (a, _) => a
        | None => hostname_and_port
        end in
      check_bracketed_host hostname
  end.

(** [_checknetloc(netloc)] returns. *)
Definition checknetloc (netloc : string) : bool :=
  negb (truthy netloc) || isascii netloc || nfkc_safe netloc.

(** [urlsplit(url, scheme)]: (scheme, netloc, path, query, fragment). *)
Definition urlsplit (url scheme : string)
  : Result (string * string * string * string * string) :=
  let url := lstrip_chars is_c0_control_or_space url in
  let scheme := strip_chars is_c0_control_or_space scheme in
  let url := remove_unsafe url in
  let scheme := remove_unsafe scheme in
  let '(scheme, url) :=
    match cut ":" url with
    | Some (String c0 _ as pre, post) =>
        if is_ascii_alpha c0 && all_chars is_scheme_char pre
        then (lower pre, post) else (scheme, url)
    | _ => (scheme, url)
    end in
  '(netloc, url) ←
    (if starts_with "//" url then
       let '(netloc, url) := splitnetloc url in
       if (contains "[" netloc && negb (contains "]" netloc))
          || (contains "]" netloc && negb (contains "[" netloc))
       then ValueError
       else if contains "[" netloc && contains "]" netloc
               && negb (check_bracketed_netloc netloc)
       then ValueError
       else Ok (netloc, url)
     else Ok ("", url));
  let '(url, fragment) :=
    match cut "#" url with Some (a, b) => (a, b) | None => (url, "") end in
  let '(url, query) :=
    match cut "?" url with Some (a, b) => (a, b) | None => (url, "") end in
  if checknetloc netloc then Ok (scheme, netloc, url, query, fragment)
  else ValueError.

(** [urlparse(url, scheme)] *)
Definition urlparse (url dflt : string) : Result ParseResult :=
  '(scheme, netloc, url, query, fragment) ← urlsplit url dflt;
  let '(url, params) :=
    if among scheme uses_params && contains ";" url
    then splitparams url else (url, "") in
  Ok {| scheme := scheme; netloc := netloc; path := url; params := params;
        query := query; fragment := fragment |}.

End parsing.

(** [urlunsplit((scheme, netloc, url, query, fragment))] *)
Definition urlunsplit (scheme netloc url query fragment : string) : string :=
  let url :=
    if truthy netloc
       || (truthy scheme && among scheme uses_netloc
           && negb (starts_with "//" url))
    then
      let url :=
        if truthy url && negb (starts_with "/" url) then "/" +:+ url else url in
      "//" +:+ netloc +:+ url
    else url in
  let url := if truthy scheme then scheme +:+ ":" +:+ url else url in
  let url := if truthy query then url +:+ "?" +:+ query else url in
  if truthy fragment then url +:+ "#" +:+ fragment else url.

(** [urlunparse(components)] *)
Definition urlunparse (r : ParseResult) : string :=
  let url :=
    if truthy (params r) then path r +:+ ";" +:+ params r else path r in
  urlunsplit (scheme r) (netloc r) url (query r) (fragment r).

(** [segments[1:-1] = filter(None, segments[1:-1])] *)
Definition squeeze_inner (segments : list string) : list string :=
  match segments with
  | first :: (_ :: _) as rest =>
      (first :: filter (fun seg => truthy seg = true) (removelast rest)
         ++ [List.last rest ""])%list
  | _ => segments
  end.

(** The loop of [urljoin] that resolves the dot segments. *)
Definition resolve_segments (segments : list string) : list string :=
  fold_left
    (fun resolved_path seg =>
       if String.eqb seg ".." then removelast resolved_path
       else if String.eqb seg "." then resolved_path
       else (resolved_path ++ [seg])%list)
    segments [].

(** [urljoin(base, url)] once both are parsed, [b] and [u]. *)
Definition join_parsed (url : string) (b u : ParseResult) : string :=
    if negb (String.eqb (scheme u) (scheme b))
       || negb (among (scheme u) uses_relative)
    then url
    else if among (scheme u) uses_netloc && truthy (netloc u)
    then urlunparse u
    else
      let netloc' :=
        if among (scheme u) uses_netloc then netloc b else netloc u in
      if negb (truthy (path u)) && negb (truthy (params u))
      then
        urlunparse
          {| scheme := scheme u; netloc := netloc'; path := path b;
             params := params b;
             query := if truthy (query u) then query u else query b;
             fragment := fragment u |}
      else
        let base_parts := split "/" (path b) in
        let base_parts :=
          if truthy (List.last base_parts "") then removelast base_parts
          else base_parts in
        let segments :=
          if starts_with "/" (path u) then split "/" (path u)
          else squeeze_inner (base_parts ++ split "/" (path u))%list in
        let resolved_path := resolve_segments segments in
        let resolved_path :=
          if among (List.last segments "") ["."; ".."]
          then (resolved_path ++ [""])%list else resolved_path in
        let joined := join "/" resolved_path in
        urlunparse
          {| scheme := scheme u; netloc := netloc';
             path := if truthy joined then joined else "/";
             params := params u; query := query u;
             fragment := fragment u |}.

(** [urljoin(base, url)] *)
Definition urljoin `{!Library} (base url : string) : Result string :=
  if negb (truthy base) then Ok url
  else if negb (truthy url) then Ok base
  else
    b ← urlparse base "";
    u ← urlparse url (scheme b);
    Ok (join_parsed url b u).

End UrlLib.

(** ** Python dictionaries and [enumerate] *)

Module PyDict.

(** A [dict] with string keys, in insertion order. *)
Definition dict (V : Type) : Type := list (string * V).

(** [d.get(k)] *)
Fixpoint dict_get {V} (d : dict V) (k : string) : option V :=
  match d with
  | [] => None
  | (k', v) :: d' => if String.eqb k' k then Some v else dict_get d' k
  end.

(** [d[k] = v]: an existing key keeps its place, a new one goes last. *)
Fixpoint dict_set {V} (d : dict V) (k : string) (v : V) : dict V :=
  match d with
  | [] => [(k, v)]
  | (k', v') :: d' =>
      if String.eqb k' k then (k', v) :: d' else (k', v') :: dict_set d' k v
  end.

(** [enumerate(l, start)] *)
Definition enumerate_from {A} (start : nat) (l : list A) : list (nat * A) :=
  imap (fun i x => ((start + i)%nat, x)) l.

End PyDict.

(** ** examples/01_basic_scraping.py *)

Module basic_scraping.
Import PyStr.

(** [extract_all_paragraphs(soup)]; [None] is the value [scrape_basic_html]
    returns on a failed request. *)
Definition extract_all_paragraphs (soup : option Node) : list string :=
  match soup with
  | Some soup =>
      let paragraphs := Soup.find_all ["p"] soup in
      map (fun p => strip (Soup.text p))
        (filter (fun p => truthy (strip (Soup.text p)) = true) paragraphs)
  | None => []
  end.

(** [extract_title(soup)] *)
Definition extract_title (soup : option Node) : option string :=
  match soup with
  | Some soup =>
      let title := Soup.find "title" soup in
      match title with
      | Some title => Some (Soup.text title)
      | None => None
      end
  | None => None
  end.

(** [f'h{i}'] *)
Definition heading_name (i : nat) : string := "h" +:+ pretty i.

(** [[h.text.strip() for h in heading_tags]] *)
Definition heading_texts (heading_tags : list Node) : list string :=
  map (fun h => strip (Soup.text h)) heading_tags.

(** [extract_all_headings(soup)] *)
Definition extract_all_headings (soup : option Node)
  : PyDict.dict (list string) :=
  match soup with
  | Some soup =>
      fold_left
        (fun headings i =>
           let heading_tags := Soup.find_all [heading_name i] soup in
           match heading_tags with
           | _ :: _ =>
               PyDict.dict_set headings (heading_name i)
                 (heading_texts heading_tags)
           | [] => headings
           end)
        (seq 1 6) []
  | None => []
  end.

(** The entry of one level: its name with the texts of its tags, when it
    has a tag. *)
Definition heading_entry (soup : Node) (i : nat)
  : option (string * list string) :=
  match Soup.find_all [heading_name i] soup with
  | [] => None
  | heading_tags => Some (heading_name i, heading_texts heading_tags)
  end.

(** [<p>&nbsp;</p><p>&emsp;a b&nbsp;</p><p> </p><p>c</p>] *)
Definition blank_paragraphs : Node :=
  Element "[document]" ∅
    [Element "p" ∅ [Text nbsp];
     Element "p" ∅ [Text (utf8 0x2003 +:+ "a b" +:+ nbsp)];
     Element "p" ∅ [Text " "];
     Element "p" ∅ [Text "c"]].

(** [<h2> A </h2><h1>B</h1><h2></h2><h4>C</h4>] *)
Definition sample_headings : Node :=
  Element "[document]" ∅
    [Element "h2" ∅ [Text " A "]; Element "h1" ∅ [Text "B"];
     Element "h2" ∅ []; Element "div" ∅ [Element "h4" ∅ [Text "C"]]].

End basic_scraping.

(** ** examples/03_links_and_images.py *)

Module links_and_images.
Import PyStr UrlLib.

(** The dictionary [{'text': ..., 'url': ...}] built for a link. *)
Record Link := { text : string; url : string }.

(** The dictionary [{'internal': [...], 'external': [...]}]. *)
Record Categorized := { internal : list Link; external : list Link }.

(** The dictionary [{'src': ..., 'alt': ..., 'title': ...}] built for an
    image. *)
Record Image := { src : string; alt : string; title : string }.

(** [bool(link.get('href'))]: the tag has an [href] and it is not empty. *)
Definition has_href (link : Node) : bool :=
  match Soup.get link "href" with
  | Some href => truthy href
  | None => false
  end.

(** [bool(img.get('src'))] *)
Definition has_src (img : Node) : bool :=
  match Soup.get img "src" with
  | Some src => truthy src
  | None => false
  end.

Section with_library.
Context `{!Library}.

(** [extract_all_links(soup, base_url)]: the loop goes on while no call
    has raised. *)
Definition extract_all_links (soup : Node) (base_url : string)
  : Result (list Link) :=
  fold_left
    (fun links link =>
       links ← links;
       let href := Soup.get link "href" in
       let text := strip (Soup.text link) in
       match href with
       | Some href =>
           if truthy href then
             absolute_url ← urljoin base_url href;
             Ok (links ++ [ {| text := if truthy text then text else "No text";
                               url := absolute_url |} ])%list
           else Ok links
       | None => Ok links
       end)
    (Soup.find_all ["a"] soup) (Ok []).

(** The text [extract_all_links] records for an anchor. *)
Definition link_text (link : Node) : string :=
  let text := strip (Soup.text link) in
  if truthy text then text else "No text".

(** The record [extract_all_links] builds for an anchor that has an
    [href], when [urljoin] returns. *)
Definition link_record (base_url : string) (link : Node) : Result Link :=
  absolute_url ← urljoin base_url (Soup.get_default link "href" "");
  Ok {| text := link_text link; url := absolute_url |}.

(** The test of [categorize_links] for the internal list, on the parsed
    URL of the link. *)
Definition same_site (base_domain : string) (parsed : ParseResult) : bool :=
  String.eqb (netloc parsed) base_domain || negb (truthy (netloc parsed)).

(** [categorize_links(links)]: the loop goes on while no call has
    raised. *)
Definition categorize_links (links : list Link) : Result Categorized :=
  let categorized := {| internal := []; external := [] |} in
  match links with
  | [] => Ok categorized
  | first :: _ =>
      base ← urlparse (url first) "";
      let base_domain := netloc base in
      fold_left
        (fun categorized link =>
           categorized ← categorized;
           parsed ← urlparse (url link) "";
           if String.eqb (netloc parsed) base_domain
              || negb (truthy (netloc parsed))
           then Ok {| internal := (internal categorized ++ [link])%list;
                      external := external categorized |}
           else Ok {| internal := internal categorized;
                      external := (external categorized ++ [link])%list |})
        links (Ok categorized)
  end.

(** [extract_all_images(soup, base_url)]: the loop goes on while no call
    has raised. *)
Definition extract_all_images (soup : Node) (base_url : string)
  : Result (list Image) :=
  fold_left
    (fun images img =>
       images ← images;
       let src := Soup.get img "src" in
       let alt := Soup.get_default img "alt" "No alt text" in
       let title := Soup.get_default img "title" "No title" in
       match src with
       | Some src =>
           if truthy src then
             absolute_url ← urljoin base_url src;
             Ok (images ++ [ {| src := absolute_url; alt := alt;
                                title := title |} ])%list
           else Ok images
       | None => Ok images
       end)
    (Soup.find_all ["img"] soup) (Ok []).

(** The record [extract_all_images] builds for an image that has a [src],
    when [urljoin] returns. *)
Definition image_record (base_url : string) (img : Node) : Result Image :=
  absolute_url ← urljoin base_url (Soup.get_default img "src" "");
  Ok {| src := absolute_url;
        alt := Soup.get_default img "alt" "No alt text";
        title := Soup.get_default img "title" "No title" |}.

End with_library.

(** Sample documents. *)

(** [<p><a href="/about">About</a><a>None</a><a href="">Empty</a></p>] *)
Definition sample_links : Node :=
  Element "[document]" ∅
    [Element "p" ∅
       [Element "a" {[ "href" := "/about" ]} [Text "About"];
        Element "a" ∅ [Text "None"];
        Element "a" {[ "href" := "" ]} [Text "Empty"]]].

(** [<a href="/about" class="nav">About</a>] *)
Definition about_page : Node :=
  Element "[document]" ∅
    [Element "a" {[ "href" := "/about"; "class" := "nav" ]} [Text "About"]].


(** [<a href="/ok">ok</a><a href="http://[::1">x</a>]: the second address
    opens a bracket that it does not close. *)
Definition unclosed_bracket_page : Node :=
  Element "[document]" ∅
    [Element "a" {[ "href" := "/ok" ]} [Text "ok"];
     Element "a" {[ "href" := "http://[::1" ]} [Text "x"]].

(** [<a href="http://[::1">x</a>] *)
Definition unclosed_bracket_anchor : Node :=
  Element "[document]" ∅ [Element "a" {[ "href" := "http://[::1" ]} [Text "x"]].

(** [<a href="#top">&nbsp;</a>] *)
Definition nbsp_anchor : Node :=
  Element "[document]" ∅ [Element "a" {[ "href" := "#top" ]} [Text nbsp]].

(** [<img src="//[x/a.png">] *)
Definition unclosed_bracket_image : Node :=
  Element "[document]" ∅ [Element "img" {[ "src" := "//[x/a.png" ]} []].

(** [<img src="/a.png" alt=""><img alt="x"><img src="b.png" title="T">] *)
Definition sample_images : Node :=
  Element "[document]" ∅
    [Element "img" {[ "src" := "/a.png"; "alt" := "" ]} [];
     Element "img" {[ "alt" := "x" ]} [];
     Element "img" {[ "src" := "b.png"; "title" := "T" ]} []].

End links_and_images.

(** ** examples/04_table_scraping.py *)

Module table_scraping.
Import PyStr.

(** The dictionary [{'headers': [...], 'rows': [...]}]. *)
Record TableRecord := { headers : list string; rows : list (list string) }.

(** [[c.text.strip() for c in tag.find_all(names)]] *)
Definition cell_texts (names : list string) (tag : Node) : list string :=
  map (fun c => strip (Soup.text c)) (Soup.find_all names tag).

(** The first part of [extract_table_data]: the value of [headers]. *)
Definition table_headers (table : Node) : list string :=
  match Soup.find "thead" table with
  | Some header_row => cell_texts ["th"] header_row
  | None =>
      match Soup.find "tr" table with
      | Some first_row => cell_texts ["th"] first_row
      | None => []
      end
  end.

(** The second part: the value of [table_rows] the final loop runs over. *)
Definition table_rows (table : Node) (headers : list string) : list Node :=
  match Soup.find "tbody" table with
  | Some tbody => Soup.find_all ["tr"] tbody
  | None =>
      let table_rows := Soup.find_all ["tr"] table in
      match headers with
      | _ :: _ => drop 1 table_rows
      | [] => table_rows
      end
  end.

(** [extract_table_data(table)] *)
Definition extract_table_data (table : Node) : TableRecord :=
  let headers := table_headers table in
  let table_rows := table_rows table headers in
  let rows :=
    fold_left
      (fun rows row =>
         let row_data := cell_texts ["td"; "th"] row in
         match row_data with
         | _ :: _ => (rows ++ [row_data])%list
         | [] => rows
         end)
      table_rows [] in
  {| headers := headers; rows := rows |}.

(** [enumerate(row)] *)
Definition enumerate {A} (l : list A) : list (nat * A) :=
  imap (fun i x => (i, x)) l.

(** [headers[i] if i < len(headers) else f"Column_{i+1}"] *)
Definition column_key (headers : list string) (i : nat) : string :=
  match headers !! i with
  | Some h => h
  | None => "Column_" +:+ pretty (i + 1)%nat
  end.

(** The inner loop of [table_to_dict_list]: the dictionary of one row. *)
Definition row_to_dict (headers row : list string) : gmap string string :=
  fold_left
    (fun (row_dict : gmap string string) '(i, value) =>
       <[column_key headers i := value]> row_dict)
    (enumerate row) ∅.

(** [table_to_dict_list(table_data)] *)
Definition table_to_dict_list (table_data : TableRecord)
  : list (gmap string string) :=
  match headers table_data, rows table_data with
  | [], _ | _, [] => []
  | headers, rows =>
      fold_left
        (fun dict_list row => (dict_list ++ [row_to_dict headers row])%list)
        rows []
  end.

(** Sample tables. *)
Definition cell (kind text : string) : Node := Element kind ∅ [Text text].

(** [<table><tbody><tr><th>H</th></tr><tr><td>a</td></tr></tbody></table>] *)
Definition header_row_in_body : Node :=
  Element "table" ∅
    [Element "tbody" ∅
       [Element "tr" ∅ [cell "th" "H"]; Element "tr" ∅ [cell "td" "a"]]].

(** [<table><thead><th>H</th></thead><tr><td>a</td></tr></table>] *)
Definition header_section_without_row : Node :=
  Element "table" ∅
    [Element "thead" ∅ [cell "th" "H"]; Element "tr" ∅ [cell "td" "a"]].

(** A header cell and two data cells with no-break spaces around or in
    place of their text. *)
Definition padded_table : Node :=
  Element "table" ∅
    [Element "tr" ∅ [cell "th" (nbsp +:+ "H" +:+ nbsp)];
     Element "tr" ∅ [cell "td" (nbsp +:+ " x"); cell "td" nbsp]].

(** A header row with one cell, a data row with three, a row without cells. *)
Definition ragged_table : Node :=
  Element "table" ∅
    [Element "tr" ∅ [cell "th" "H"];
     Element "tr" ∅ [cell "td" " a "; cell "td" "b"; cell "th" "c"];
     Element "tr" ∅ [Text "no cell"]].

Definition sample_table : TableRecord :=
  {| headers := ["Name"; "Name"]; rows := [["a"; "b"; "c"]; ["d"]] |}.

(** The table of the sample page of [demo_local.py], with a footer row
    added after the body section. *)
Definition library_table : Node :=
  Element "table" {[ "border" := "1" ]}
    [Element "thead" ∅
       [Element "tr" ∅ [cell "th" "Library"; cell "th" "Purpose";
                        cell "th" "Version"]];
     Element "tbody" ∅
       [Element "tr" ∅ [cell "td" "Requests"; cell "td" "HTTP Requests";
                        cell "td" "2.31.0"];
        Element "tr" ∅ [cell "td" "BeautifulSoup4"; cell "td" "HTML Parsing";
                        cell "td" "4.12.0"];
        Element "tr" ∅ [cell "td" "lxml"; cell "td" "Fast Parser";
                        cell "td" "4.9.0"]];
     Element "tfoot" ∅ [Element "tr" ∅ [cell "td" "three libraries"]]].

(** The dictionary of a table after [table_data['table_number'] = i]. *)
Record NumberedTable := { table_data : TableRecord; table_number : nat }.

(** [extract_all_tables(soup)] *)
Definition extract_all_tables (soup : Node) : list NumberedTable :=
  let tables := Soup.find_all ["table"] soup in
  fold_left
    (fun all_table_data '(i, table) =>
       let table_data := extract_table_data table in
       (all_table_data
        ++ [ {| table_data := table_data; table_number := i |} ])%list)
    (PyDict.enumerate_from 1 tables) [].

(** The keys the inner loop of [table_to_dict_list] assigns for a row of
    [n] cells, in order. *)
Definition row_keys (headers : list string) (n : nat) : list string :=
  map (column_key headers) (seq 0 n).

(** A table, without header cells, that holds another table in a cell. *)
Definition table_in_table : Node :=
  Element "table" ∅
    [Element "tr" ∅
       [Element "td" ∅
          [Element "table" ∅ [Element "tr" ∅ [cell "td" "inner"]]]];
     Element "tr" ∅ [cell "td" "outer"]].

End table_scraping.

(** ** examples/05_advanced_techniques.py *)

Module advanced_techniques.
Import PyStr.

(** The dictionary with the keys [title], [description], [keywords] and
    [author]; [None] is Python's [None]. *)
Record Metadata := {
  title : option string;
  description : option string;
  keywords : option string;
  author : option string
}.

(** [tag.get('content', '')] *)
Definition content_of (tag : Node) : string := Soup.get_default tag "content" "".

Definition no_metadata : Metadata :=
  {| title := None; description := None; keywords := None; author := None |}.

Section with_library.
Context `{!Library}.

(** The body of the loop over the [meta] tags. *)
Definition meta_step (metadata : Metadata) (tag : Node) : Metadata :=
  let name := lower (Soup.get_default tag "name" "") in
  let property_name := lower (Soup.get_default tag "property" "") in
  let content := Soup.get_default tag "content" "" in
  if String.eqb name "description" || String.eqb property_name "og:description"
  then {| title := title metadata; description := Some content;
          keywords := keywords metadata; author := author metadata |}
  else if String.eqb name "keywords"
  then {| title := title metadata; description := description metadata;
          keywords := Some content; author := author metadata |}
  else if String.eqb name "author"
  then {| title := title metadata; description := description metadata;
          keywords := keywords metadata; author := Some content |}
  else metadata.

(** The three branches of [meta_step], as tests on a [meta] tag: the
    second and third are reached only when the ones before them fail. *)
Definition named (field : string) (tag : Node) : bool :=
  String.eqb (lower (Soup.get_default tag "name" "")) field.

Definition is_description (tag : Node) : bool :=
  named "description" tag
  || String.eqb (lower (Soup.get_default tag "property" "")) "og:description".

Definition is_keywords (tag : Node) : bool :=
  negb (is_description tag) && named "keywords" tag.

Definition is_author (tag : Node) : bool :=
  negb (is_description tag) && named "author" tag.

(** [extract_metadata(soup)]; [None] is the value the fetch helpers return
    on a failed request. *)
Definition extract_metadata (soup : option Node) : Metadata :=
  let metadata :=
    {| title := None; description := None; keywords := None; author := None |} in
  match soup with
  | None => metadata
  | Some soup =>
      let metadata :=
        match Soup.find "title" soup with
        | Some title_tag =>
            {| title := Some (strip (Soup.text title_tag));
               description := description metadata;
               keywords := keywords metadata; author := author metadata |}
        | None => metadata
        end in
      let meta_tags := Soup.find_all ["meta"] soup in
      fold_left meta_step meta_tags metadata
  end.

End with_library.

(** Sample documents. *)

(** [<meta name="author" content="A"><meta name="Author" content="B">] *)
Definition two_authors : Node :=
  Element "[document]" ∅
    [Element "head" ∅
       [Element "title" ∅ [Text " Page "];
        Element "meta" {[ "name" := "author"; "content" := "A" ]} [];
        Element "meta" {[ "name" := "Author"; "content" := "B" ]} []]].

(** [<meta name="author" content="A">
     <meta name="author" property="og:description" content="B">] *)
Definition author_and_description : Node :=
  Element "[document]" ∅
    [Element "meta" {[ "name" := "author"; "content" := "A" ]} [];
     Element "meta" {[ "name" := "author"; "property" := "og:description";
                       "content" := "B" ]} []].

(** What [scrape_with_rate_limiting] does to the outside, in order: a line
    printed, a page requested through [scrape_with_custom_headers], a call
    of [time.sleep]. *)
Inductive Event (Delay : Type) : Type :=
| Printed (line : string)
| Requested (url : string)
| Slept (delay : Delay).
Arguments Printed {Delay} line.
Arguments Requested {Delay} url.
Arguments Slept {Delay} delay.

(** [f"Scraping URL {i}/{len(urls)}: {url}"] *)
Definition progress_line (i n : nat) (url : string) : string :=
  "Scraping URL " +:+ pretty i +:+ "/" +:+ pretty n +:+ ": " +:+ url.

(** [scrape_with_rate_limiting(urls, delay)]: the events of the run and the
    list returned.  [fetch i url] is what the [i]-th call of
    [scrape_with_custom_headers], made for [url], returns: the parsed page
    or [None]. *)
Definition scrape_with_rate_limiting {Delay : Type}
    (fetch : nat -> string -> option Node) (urls : list string) (delay : Delay)
  : list (Event Delay) * list (option Node) :=
  fold_left
    (fun '(events, results) '(i, url) =>
       let events := (events ++ [Printed (progress_line i (length urls) url)])%list in
       let soup := fetch i url in
       let events := (events ++ [Requested url])%list in
       let results := (results ++ [soup])%list in
       if (i <? length urls)%nat
       then ((events ++ [Slept delay])%list, results)
       else (events, results))
    (PyDict.enumerate_from 1 urls) ([], []).




End advanced_techniques.

(** ** examples/02_css_selectors.py *)

Module css_selectors.
Import PyStr.

(** Modelled from the spec: the selector engine behind [soup.select] is
    BeautifulSoup's and is not part of the sources.  Section 4.1 of the
    specification gives its grammar (tag name, [#id], [.class],
    [tag[attr=value]], descendant and direct-child combinators) and
    section 9 its representation, a small tagged variant. *)
Inductive Simple : Type :=
| TagSel (tag : string)
| IdSel (id : string)
| ClassSel (class : string)
| AttrSel (tag attr value : string).

Inductive Combinator : Type := Descendant | Child.

(** A selector read from right to left: the compound the element itself
    has to satisfy and, through a combinator, the selector for an element
    above it. *)
Inductive Selector : Type :=
| Compound (s : Simple)
| Combine (above : Selector) (c : Combinator) (s : Simple).

(** Modelled from the spec: an element found by [select], with its
    position (the child indices leading to it from the document), and the
    elements above it, the nearest first. *)
Record Located := {
  at_path : list nat;
  element : Node;
  ancestors : list Node
}.

(** Modelled from the spec: the elements strictly below [n] in document
    order; [p] is the position of [n] and [above] the chain seen from the
    children of [n]. *)
Fixpoint located_below (p : list nat) (above : list Node) (n : Node)
  : list Located :=
  match n with
  | Element _ _ contents =>
      (fix children (i : nat) (cs : list Node) : list Located :=
         match cs with
         | [] => []
         | c :: cs' =>
             (match c with
              | Element _ _ _ =>
                  [ {| at_path := (p ++ [i])%list; element := c;
                       ancestors := above |} ]
              | _ => []
              end
              ++ located_below (p ++ [i])%list (c :: above) c
              ++ children (S i) cs')%list
         end) 0%nat contents
  | _ => []
  end.

(** The elements of a document; the document object itself is not one of
    them and is nobody's ancestor. *)
Definition elements (soup : Node) : list Located := located_below [] [] soup.

(** Modelled from the spec: does the element satisfy one compound. *)
Definition simple_match (s : Simple) (e : Node) : bool :=
  match e with
  | Element name attrs _ =>
      match s with
      | TagSel tag => String.eqb name tag
      | IdSel id => bool_decide (attrs !! "id" = Some id)
      | ClassSel class =>
          match attrs !! "class" with
          | Some v => bool_decide (class ∈ words v)
          | None => false
          end
      | AttrSel tag attr value =>
          String.eqb name tag && bool_decide (attrs !! attr = Some value)
      end
  | _ => false
  end.

(** Modelled from the spec: the direct-child combinator looks at the
    parent only, the descendant combinator at every element above. *)
Fixpoint matches (sel : Selector) (e : Node) (above : list Node) : bool :=
  match sel with
  | Compound s => simple_match s e
  | Combine sel' Child s =>
      simple_match s e
      && match above with
         | parent :: above' => matches sel' parent above'
         | [] => false
         end
  | Combine sel' Descendant s =>
      simple_match s e
      && (fix some (l : list Node) : bool :=
            match l with
            | [] => false
            | a :: l' => matches sel' a l' || some l'
            end) above
  end.

Definition is_ident_start (c : ascii) : bool :=
  UrlLib.is_ascii_alpha c || Ascii.eqb c "_".

Definition is_ident_char (c : ascii) : bool :=
  UrlLib.is_ascii_alpha c || UrlLib.between 48 57 c
  || Ascii.eqb c "_" || Ascii.eqb c "-".

(** A tag, class, id or attribute name. *)
Definition is_ident (s : string) : bool :=
  match s with
  | String c s' => is_ident_start c && all_chars is_ident_char s'
  | EmptyString => false
  end.

(** The double quote. *)
Definition quote : ascii := ascii_of_nat 34.

Definition is_quote (c : ascii) : bool := Ascii.eqb c quote.

(** The value of [[attr=value]]: a name, or any text without a quote or
    whitespace between two quotes. *)
Definition parse_value (v : string) : option string :=
  match v with
  | String q v' =>
      if is_quote q then
        match rcut quote v' with
        | Some (inner, String _ EmptyString) =>
            if contains quote inner then None else Some inner
        | _ => None
        end
      else if is_ident v then Some v else None
  | EmptyString => None
  end.

(** Modelled from the spec: one compound of the restricted grammar. *)
Definition parse_compound (w : string) : option Simple :=
  match w with
  | String "#" r => if is_ident r then Some (IdSel r) else None
  | String "." r => if is_ident r then Some (ClassSel r) else None
  | _ =>
      match cut "[" w with
      | None => if is_ident w then Some (TagSel w) else None
      | Some (tag, r) =>
          match cut "=" r with
          | Some (attr, r') =>
              match rcut "]" r' with
              | Some (v, String _ EmptyString) =>
                  if is_ident tag && is_ident attr
                  then AttrSel tag attr <$> parse_value v
                  else None
              | _ => None
              end
          | None => None
          end
      end
  end.

(** Puts the direct-child sign between spaces, so that it is a word of
    its own. *)
Fixpoint spaced (s : string) : string :=
  match s with
  | EmptyString => EmptyString
  | String c s' =>
      if Ascii.eqb c ">" then " > " +:+ spaced s' else String c (spaced s')
  end.

(** The compounds after the first, each with the combinator before it. *)
Fixpoint parse_rest (above : Selector) (ws : list string) : option Selector :=
  match ws with
  | [] => Some above
  | w :: ws' =>
      if String.eqb w ">" then
        match ws' with
        | w' :: ws'' =>
            match parse_compound w' with
            | Some s => parse_rest (Combine above Child s) ws''
            | None => None
            end
        | [] => None
        end
      else
        match parse_compound w with
        | Some s => parse_rest (Combine above Descendant s) ws'
        | None => None
        end
  end.

(** Modelled from the spec: the selector a string denotes, or [None] when
    it is outside the restricted grammar. *)
Definition parse_selector (selector : string) : option Selector :=
  match words (spaced selector) with
  | [] => None
  | w :: ws =>
      match parse_compound w with
      | Some s => parse_rest (Compound s) ws
      | None => None
      end
  end.

Inductive SelectResult : Type :=
| Matches (found : list Located)
| UnsupportedSelectorError.

(** Modelled from the spec: [soup.select(selector)], all matching elements
    in document order. *)
Definition select (soup : Node) (selector : string) : SelectResult :=
  match parse_selector selector with
  | Some sel =>
      Matches
        (filter (fun l => matches sel (element l) (ancestors l) = true)
           (elements soup))
  | None => UnsupportedSelectorError
  end.

(** [select_by_tag(soup, tag)] *)
Definition select_by_tag (soup : Node) (tag : string) : SelectResult :=
  select soup tag.

(** [select_nested_elements(soup, parent, child)] *)
Definition select_nested_elements (soup : Node) (parent child : string)
  : SelectResult :=
  select soup (parent +:+ " " +:+ child).

(** [select_direct_children(soup, parent, child)] *)
Definition select_direct_children (soup : Node) (parent child : string)
  : SelectResult :=
  select soup (parent +:+ " > " +:+ child).

(** The node at a position. *)
Fixpoint node_at (p : list nat) (n : Node) : option Node :=
  match p with
  | [] => Some n
  | i :: p' =>
      match n with
      | Element _ _ contents =>
          match contents !! i with
          | Some c => node_at p' c
          | None => None
          end
      | _ => None
      end
  end.

(** [select_by_class(soup, class_name)] *)
Definition select_by_class (soup : Node) (class_name : string) : SelectResult :=
  select soup ("." +:+ class_name).

(** What [select_by_id] gives: the element or [None], unless [select]
    fails. *)
Inductive SelectOne : Type :=
| One (found : option Located)
| UnsupportedSelector.

(** [select_by_id(soup, element_id)] *)
Definition select_by_id (soup : Node) (element_id : string) : SelectOne :=
  match select soup ("#" +:+ element_id) with
  | Matches result => One (head result)
  | UnsupportedSelectorError => UnsupportedSelector
  end.

(** The tests of the id and class selectors on a tag. *)
Definition has_id (id : string) (e : Node) : bool :=
  bool_decide (Soup.get e "id" = Some id).

Definition has_class (class : string) (e : Node) : bool :=
  match Soup.get e "class" with
  | Some v => bool_decide (class ∈ words v)
  | None => false
  end.

(** [<p id="x" class="a  b">1</p><div id="x" class="b">2</div>] *)
Definition tagged_page : Node :=
  Element "[document]" ∅
    [Element "p" {[ "id" := "x"; "class" := "a  b" ]} [Text "1"];
     Element "div" {[ "id" := "x"; "class" := "b" ]} [Text "2"]].

(** The children loop of [located_below], as a function of its own. *)
Fixpoint located_children (p : list nat) (above : list Node) (i : nat)
  (cs : list Node) : list Located :=
  match cs with
  | [] => []
  | c :: cs' =>
      (match c with
       | Element _ _ _ =>
           [ {| at_path := (p ++ [i])%list; element := c; ancestors := above |} ]
       | _ => []
       end
       ++ located_below (p ++ [i])%list (c :: above) c
       ++ located_children p above (S i) cs')%list
  end.

(** The elements above the node at position [q] below [n], the nearest
    first, followed by [above]. *)
Fixpoint chain_at (q : list nat) (n : Node) (above : list Node) : list Node :=
  match q with
  | [] => above
  | i :: q' =>
      match q', n with
      | _ :: _, Element _ _ contents =>
          match contents !! i with
          | Some c => chain_at q' c (c :: above)
          | None => above
          end
      | _, _ => above
      end
  end.

Definition here (p : list nat) (above : list Node) (c : Node) : Located :=
  {| at_path := p; element := c; ancestors := above |}.

(** [<html><div>x<section><p>a</p></section><p class="b c"></p></div></html>] *)
Definition nested_page : Node :=
  Element "[document]" ∅
    [Element "html" ∅
       [Element "div" ∅
          [Text "x";
           Element "section" ∅ [Element "p" ∅ [Text "a"]];
           Element "p" {[ "class" := "b c" ]} []]]].

End css_selectors.


(** * Properties *)

Local Open Scope list_scope.

(** ** Strings *)

Section string_append.
Lemma append_cons c s t : String c s +:+ t = String c (s +:+ t).
Proof. reflexivity. Qed.

Lemma append_nil_l t : "" +:+ t = t.
Proof. reflexivity. Qed.

Lemma append_nil_r s : s +:+ "" = s.
Proof. induction s as [|c s IH]; [done|]. by rewrite append_cons, IH. Qed.

Lemma append_assoc s t u : (s +:+ t) +:+ u = s +:+ (t +:+ u).
Proof. induction s as [|c s IH]; [done|]. by rewrite !append_cons, IH. Qed.
End string_append.

Section slices.
Import PyStr.

Lemma take_drop_chars n s : take_chars n s +:+ drop_chars n s = s.
Proof.
  revert s. induction n as [|n IH]; intros [|c s]; simpl; try done.
  by rewrite append_cons, IH.
Qed.

Lemma length_drop_chars n s :
  String.length (drop_chars n s) = (String.length s - n)%nat.
Proof. revert s. induction n as [|n IH]; intros [|c s]; simpl; auto. Qed.

Lemma take_chars_short n s : (String.length s ≤ n)%nat → take_chars n s = s.
Proof.
  revert s. induction n as [|n IH]; intros [|c s]; simpl; try done; [lia|].
  intros ?. f_equal. apply IH. lia.
Qed.

Lemma take_chars_app n p v :
  (n ≤ String.length p)%nat → take_chars n (p +:+ v) = take_chars n p.
Proof.
  revert p. induction n as [|n IH]; intros [|c p]; simpl; try done; [lia|].
  intros ?. f_equal. apply IH. lia.
Qed.

Lemma drop_chars_app n p v :
  (n ≤ String.length p)%nat → drop_chars n (p +:+ v) = drop_chars n p +:+ v.
Proof.
  revert p. induction n as [|n IH]; intros [|c p]; simpl; try done; [lia|].
  intros ?. apply IH. lia.
Qed.
End slices.

Section whitespace.
Import PyStr.

Lemma whitespace_utf8_lengths :
  Forall (λ w, (1 ≤ String.length w ≤ 3)%nat) whitespace_utf8.
Proof. eapply bool_decide_unpack. by vm_compute. Qed.

Lemma space_len_take s k :
  space_len s = S k →
  take_chars (S k) s ∈ whitespace_utf8 ∧ (S k ≤ String.length s)%nat.
Proof.
  unfold space_len. intros Hk.
  assert (∀ n, take_chars n s ∈ whitespace_utf8 →
               (∀ m, (m < n)%nat → take_chars m s ∉ whitespace_utf8) →
               (n ≤ String.length s)%nat) as Hlen.
  { intros n Hn Hm. destruct (decide (n ≤ String.length s)%nat) as [|Hs]; [done|].
    destruct n as [|n].
    - lia.
    - destruct (Hm n); [lia|].
      rewrite take_chars_short in Hn by lia. by rewrite take_chars_short by lia. }
  assert (take_chars 0 s ∉ whitespace_utf8) as H0.
  { destruct s; simpl; by eapply bool_decide_unpack; vm_compute. }
  repeat case_bool_decide; simplify_eq; (split; [done|]); apply Hlen; try done;
    intros m Hm; repeat (destruct m as [|m]; try done; try lia).
Qed.

Lemma space_len_app p v k :
  space_len p = S k → space_len (p +:+ v) = S k.
Proof.
  intros Hk. destruct (space_len_take _ _ Hk) as [_ Hlen].
  revert Hk. unfold space_len.
  assert (∀ n, (n ≤ S k)%nat → take_chars n (p +:+ v) = take_chars n p) as Ht.
  { intros n Hn. apply take_chars_app. lia. }
  repeat case_bool_decide; intros; simplify_eq;
    rewrite ?Ht in * by lia; done.
Qed.

Lemma space_len_prefix p v : space_len (p +:+ v) = 0 → space_len p = 0.
Proof.
  intros Hv. destruct (space_len p) as [|k] eqn:Hk; [done|].
  by rewrite (space_len_app _ _ _ Hk) in Hv.
Qed.

Lemma lstrip_from_enough n m s :
  (String.length s ≤ n)%nat → (String.length s ≤ m)%nat →
  lstrip_from n s = lstrip_from m s.
Proof.
  revert m s. induction n as [|n IH]; intros [|m] s Hn Hm; cbn [lstrip_from];
    try done.
  - destruct s; [|simpl in Hn; lia]. by vm_compute.
  - destruct s; [|simpl in Hm; lia]. by vm_compute.
  - destruct (space_len s) as [|k] eqn:Hk; [done|].
    destruct (space_len_take _ _ Hk) as [_ Hlen].
    apply IH; rewrite length_drop_chars; lia.
Qed.

Lemma lstrip_unfold s :
  lstrip s = match space_len s with
             | 0 => s
             | n => lstrip (drop_chars n s)
             end.
Proof.
  unfold lstrip. destruct s as [|c s]; [by vm_compute|].
  cbn [String.length lstrip_from].
  destruct (space_len (String c s)) as [|k] eqn:Hk; [done|].
  destruct (space_len_take _ _ Hk) as [_ Hlen]. simpl in Hlen.
  apply lstrip_from_enough; rewrite ?length_drop_chars; simpl; lia.
Qed.

(** Induction on a string through its suffixes. *)
Lemma suffix_ind (P : string → Prop) :
  (∀ s, (∀ n, (0 < n ≤ String.length s)%nat → P (drop_chars n s)) → P s) →
  ∀ s, P s.
Proof.
  intros Hstep s.
  assert (∀ n s, (String.length s ≤ n)%nat → P s) as H; [|by apply (H (String.length s))].
  clear s. intros n. induction n as [|n IH]; intros s Hs.
  - apply Hstep. intros m Hm. lia.
  - apply Hstep. intros m Hm. apply IH. rewrite length_drop_chars. lia.
Qed.

Lemma lstrip_no_space s : space_len (lstrip s) = 0.
Proof.
  induction s as [s IH] using suffix_ind.
  rewrite lstrip_unfold. destruct (space_len s) as [|k] eqn:Hk; [done|].
  apply IH. destruct (space_len_take _ _ Hk). lia.
Qed.

Lemma lstrip_fixed s : space_len s = 0 → lstrip s = s.
Proof. intros Hs. by rewrite lstrip_unfold, Hs. Qed.

Lemma lstrip_idem s : lstrip (lstrip s) = lstrip s.
Proof. apply lstrip_fixed, lstrip_no_space. Qed.

Lemma lstrip_app p v : lstrip p = "" → lstrip (p +:+ v) = lstrip v.
Proof.
  induction p as [p IH] using suffix_ind. intros Hp.
  rewrite lstrip_unfold in Hp.
  destruct (space_len p) as [|k] eqn:Hk; [by subst|].
  destruct (space_len_take _ _ Hk) as [_ Hlen].
  rewrite (lstrip_unfold (p +:+ v)), (space_len_app _ _ _ Hk).
  rewrite drop_chars_app by done. apply IH; [lia|done].
Qed.

Lemma is_blank_app p v :
  is_blank p = true → is_blank v = true → is_blank (p +:+ v) = true.
Proof.
  unfold is_blank. intros Hp Hv. rewrite lstrip_app; [done|].
  by destruct (lstrip p).
Qed.

Lemma rstrip_split s : ∃ w, s = rstrip s +:+ w ∧ is_blank w = true.
Proof.
  induction s as [|c s (w & Hw & Hb)]; [by exists ""|].
  cbn [rstrip]. destruct (is_blank (String c s)) eqn:Hc.
  - by exists (String c s).
  - exists w. by rewrite append_cons, <- Hw.
Qed.

Lemma rstrip_truthy s : truthy (rstrip s) = negb (is_blank s).
Proof.
  destruct s as [|c s]; [by vm_compute|].
  cbn [rstrip]. by destruct (is_blank (String c s)).
Qed.

Lemma rstrip_idem s : rstrip (rstrip s) = rstrip s.
Proof.
  induction s as [|c s IH]; [done|].
  cbn [rstrip]. destruct (is_blank (String c s)) eqn:Hc; [done|].
  cbn [rstrip]. rewrite IH.
  destruct (is_blank (String c (rstrip s))) eqn:Hr; [|done].
  destruct (rstrip_split s) as (w & Hw & Hb).
  rewrite Hw, <- append_cons, is_blank_app in Hc; done.
Qed.

Lemma strip_idem s : strip (strip s) = strip s.
Proof.
  unfold strip.
  assert (lstrip (rstrip (lstrip s)) = rstrip (lstrip s)) as ->.
  { apply lstrip_fixed.
    destruct (rstrip_split (lstrip s)) as (w & Hw & _).
    apply (space_len_prefix _ w). rewrite <- Hw. apply lstrip_no_space. }
  apply rstrip_idem.
Qed.

(** Nothing is left of a text after trimming exactly when the text is
    blank. *)
Lemma strip_truthy s : truthy (strip s) = negb (is_blank s).
Proof.
  unfold strip. rewrite rstrip_truthy. unfold is_blank. by rewrite lstrip_idem.
Qed.

Lemma space_len_utf8 n :
  n ∈ whitespace → space_len (utf8 n) = String.length (utf8 n)
                   ∧ (0 < String.length (utf8 n))%nat.
Proof.
  revert n. apply Forall_forall. eapply bool_decide_unpack. by vm_compute.
Qed.

Lemma is_blank_encode l :
  Forall (λ n, n ∈ whitespace) l → is_blank (encode l) = true.
Proof.
  induction 1 as [|n l Hn _ IH]; [by vm_compute|].
  simpl. apply is_blank_app; [|done].
  destruct (space_len_utf8 n Hn) as [Hlen Hpos].
  unfold is_blank. rewrite lstrip_unfold, Hlen.
  destruct (String.length (utf8 n)) as [|k] eqn:Hk; [lia|].
  rewrite <- Hk.
  replace (drop_chars (String.length (utf8 n)) (utf8 n)) with "".
  - by vm_compute.
  - generalize (utf8 n). intros t. induction t; simpl; auto.
Qed.

Lemma whitespace_utf8_decode w :
  w ∈ whitespace_utf8 → ∃ n, n ∈ whitespace ∧ w = utf8 n.
Proof.
  unfold whitespace_utf8. intros (n & -> & Hn)%list_elem_of_fmap. eauto.
Qed.

(** A text is blank exactly when it is the encoding of whitespace
    characters. *)
Lemma is_blank_spec s :
  is_blank s = true ↔ ∃ l, Forall (λ n, n ∈ whitespace) l ∧ s = encode l.
Proof.
  split; [|by intros (l & Hl & ->); apply is_blank_encode].
  induction s as [s IH] using suffix_ind. unfold is_blank.
  rewrite lstrip_unfold. destruct (space_len s) as [|k] eqn:Hk.
  - destruct s; [|done]. by exists [].
  - intros Hb. destruct (space_len_take _ _ Hk) as [Hw Hlen].
    destruct (whitespace_utf8_decode _ Hw) as (n & Hn & Hu).
    destruct (IH (S k)) as (l & Hl & Hs); [lia|done|].
    exists (n :: l). split; [by constructor|].
    simpl. by rewrite <- Hu, <- Hs, take_drop_chars.
Qed.

Lemma blank_head s : is_blank s = true → s ≠ "" → space_len s ≠ 0.
Proof.
  unfold is_blank. intros Hb Hs Hlen. rewrite lstrip_fixed in Hb by done.
  by destruct s.
Qed.

Lemma lstrip_split s : ∃ a, s = a +:+ lstrip s ∧ is_blank a = true.
Proof.
  induction s as [s IH] using suffix_ind.
  rewrite lstrip_unfold. destruct (space_len s) as [|k] eqn:Hk.
  - by exists "".
  - destruct (space_len_take _ _ Hk) as [Hw Hlen].
    destruct (whitespace_utf8_decode _ Hw) as (n & Hn & Hu).
    destruct (IH (S k)) as (a & Ha & Hb); [lia|].
    exists (take_chars (S k) s +:+ a). split.
    + by rewrite append_assoc, <- Ha, take_drop_chars.
    + apply is_blank_app; [|done]. rewrite Hu.
      rewrite <- (append_nil_r (utf8 n)).
      apply (is_blank_encode [n]). by constructor.
Qed.

(** The trimmed text is the text between a blank prefix and a blank
    suffix, and neither starts nor ends with a whitespace character. *)
Lemma strip_split s :
  ∃ a b, s = a +:+ strip s +:+ b ∧ is_blank a = true ∧ is_blank b = true.
Proof.
  destruct (lstrip_split s) as (a & Ha & Hba).
  destruct (rstrip_split (lstrip s)) as (b & Hb & Hbb).
  exists a, b. unfold strip. by rewrite <- Hb, <- Ha.
Qed.

Lemma strip_no_leading s w u :
  strip s = w +:+ u → is_blank w = true → w = "".
Proof.
  intros Hs Hw. destruct (decide (w = "")) as [|Hne]; [done|].
  destruct (space_len w) as [|k] eqn:Hk; [by destruct (blank_head w)|].
  assert (space_len (strip s) = 0) as Hlen.
  { unfold strip. destruct (rstrip_split (lstrip s)) as (b & Hb & _).
    apply (space_len_prefix _ b). rewrite <- Hb. apply lstrip_no_space. }
  by rewrite Hs, (space_len_app _ _ _ Hk) in Hlen.
Qed.

Lemma rstrip_no_trailing s u w :
  rstrip s = u +:+ w → is_blank w = true → w = "".
Proof.
  revert u. induction s as [|c s IH]; intros u Hs Hw.
  - destruct u; [done|discriminate].
  - cbn [rstrip] in Hs. destruct (is_blank (String c s)) eqn:Hc.
    + destruct u; [done|discriminate].
    + destruct u as [|d u].
      * rewrite append_nil_l in Hs. subst w.
        destruct (rstrip_split s) as (b & Hb & Hbb).
        rewrite Hb, <- append_cons, is_blank_app in Hc; done.
      * rewrite append_cons in Hs. injection Hs as _ Hs. by eapply IH.
Qed.

Lemma strip_no_trailing s u w :
  strip s = u +:+ w → is_blank w = true → w = "".
Proof. apply rstrip_no_trailing. Qed.
End whitespace.

Lemma truthy_true s : PyStr.truthy s = true ↔ s ≠ "".
Proof. by destruct s. Qed.

(** ** Loops that append *)

Section loops.
Context {A B : Type}.

(** A loop that appends [g x] for the items that pass a test and leaves
    the list alone for the others builds the comprehension. *)
Lemma fold_left_snoc_filter (step : list B → A → list B) (P : A → Prop)
    `{!∀ x, Decision (P x)} (g : A → B) :
  (∀ acc x, step acc x = if decide (P x) then acc ++ [g x] else acc) →
  ∀ l acc, fold_left step l acc = acc ++ map g (filter P l).
Proof.
  intros Hstep l. induction l as [|x l IH]; intros acc; simpl.
  - by rewrite app_nil_r.
  - rewrite IH, Hstep, filter_cons.
    destruct (decide (P x)); [|done].
    by rewrite <- app_assoc.
Qed.

Lemma fold_left_snoc_map (g : A → B) (l : list A) (acc : list B) :
  fold_left (λ acc x, acc ++ [g x]) l acc = acc ++ map g l.
Proof.
  revert acc. induction l as [|x l IH]; intros acc; simpl.
  - by rewrite app_nil_r.
  - by rewrite IH, <- app_assoc.
Qed.

Lemma filter_map_comm (f : A → B) (Q : B → Prop) `{!∀ y, Decision (Q y)}
    (l : list A) :
  filter Q (map f l) = map f (filter (λ x, Q (f x)) l).
Proof.
  induction l as [|x l IH]; [done|]. simpl.
  rewrite !filter_cons, IH. by destruct (decide (Q (f x))).
Qed.
End loops.

Lemma filter_ext_in {A} (P Q : A → Prop) `{!∀ x, Decision (P x)}
    `{!∀ x, Decision (Q x)} (l : list A) :
  (∀ x, x ∈ l → P x ↔ Q x) → filter P l = filter Q l.
Proof.
  induction l as [|x l IH]; intros Hl; [done|].
  rewrite !filter_cons, IH by (intros; apply Hl; by right).
  destruct (decide (P x)) as [HP|HP], (decide (Q x)) as [HQ|HQ]; try done.
  - destruct HQ. apply Hl; [by left|done].
  - destruct HP. apply Hl; [by left|done].
Qed.

(** ** Loops that stop at the first error *)

Section result_loops.
Context {A B : Type}.

Lemma bind_Ok {C D} (m : Result C) (f : C → Result D) (y : D) :
  m ≫= f = Ok y ↔ ∃ x, m = Ok x ∧ f x = Ok y.
Proof.
  destruct m as [x|]; simpl.
  - split; [eauto|]. by intros (? & [= <-] & ?).
  - split; [done|]. by intros (? & ? & _).
Qed.

Lemma bind_ValueError {C D} (m : Result C) (f : C → Result D) :
  m ≫= f = ValueError ↔ m = ValueError ∨ ∃ x, m = Ok x ∧ f x = ValueError.
Proof.
  destruct m as [x|]; simpl.
  - split; [eauto|]. by intros [|(? & [= <-] & ?)].
  - split; [by left|done].
Qed.

Lemma mapM_cons (g : A → Result B) x l :
  mapM g (x :: l) = y ← g x; k ← mapM g l; Ok (y :: k).
Proof. reflexivity. Qed.

(** [mapM g l] returns the list of the results when every call returns. *)
Lemma mapM_Ok (g : A → Result B) l ys :
  mapM g l = Ok ys ↔ Forall2 (λ x y, g x = Ok y) l ys.
Proof.
  revert ys. induction l as [|x l IH]; intros ys.
  - split; [intros [= <-]; constructor|by inversion 1].
  - rewrite mapM_cons, bind_Ok. split.
    + intros (y & Hy & (k & Hk & [= <-])%bind_Ok).
      constructor; [done|]. by apply IH.
    + inversion 1 as [|? y ? k Hy Hk]; subst.
      exists y. split; [done|]. apply bind_Ok. exists k. by rewrite IH.
Qed.

(** [mapM g l] raises when a call does. *)
Lemma mapM_ValueError (g : A → Result B) l :
  mapM g l = ValueError ↔ ∃ x, x ∈ l ∧ g x = ValueError.
Proof.
  induction l as [|x l IH].
  - split; [done|]. by intros (? & ?%elem_of_nil & _).
  - rewrite mapM_cons. split.
    + destruct (g x) as [y|] eqn:Hy; simpl.
      * destruct (mapM g l) as [k|] eqn:Hk; simpl; [done|].
        intros _. destruct IH as [(z & Hz & Hgz) _]; [done|].
        exists z. split; [by right|done].
      * intros _. exists x. split; [by left|done].
    + intros (z & [->|Hz]%elem_of_cons & Hgz).
      * by rewrite Hgz.
      * destruct (g x); simpl; [|done].
        by rewrite (proj2 IH) by eauto.
Qed.

Lemma mapM_length (g : A → Result B) l ys :
  mapM g l = Ok ys → length ys = length l.
Proof. intros H%mapM_Ok. symmetry. by eapply Forall2_length. Qed.

Lemma fold_left_ValueError {S} (step : Result S → A → Result S) l :
  (∀ x, step ValueError x = ValueError) →
  fold_left step l ValueError = ValueError.
Proof. intros Hstep. induction l as [|x l IH]; simpl; [done|]. by rewrite Hstep. Qed.

(** A loop that appends [g x] for the items that pass a test, leaves the
    list alone for the others and stops when [g] raises returns the
    results of [g] on the items that pass, or raises. *)
Lemma fold_left_collect (step : Result (list B) → A → Result (list B))
    (P : A → Prop) `{!∀ x, Decision (P x)} (g : A → Result B) :
  (∀ acc x, step (Ok acc) x
            = if decide (P x) then y ← g x; Ok (acc ++ [y]) else Ok acc) →
  (∀ x, step ValueError x = ValueError) →
  ∀ l acc,
    fold_left step l (Ok acc) = ys ← mapM g (filter P l); Ok (acc ++ ys).
Proof.
  intros Hstep Herr l. induction l as [|x l IH]; intros acc; simpl.
  - by rewrite app_nil_r.
  - rewrite Hstep, filter_cons. destruct (decide (P x)); [|apply IH].
    rewrite mapM_cons. destruct (g x) as [y|]; simpl.
    + rewrite IH. destruct (mapM g (filter P l)); simpl; [|done].
      by rewrite <- app_assoc.
    + by apply fold_left_ValueError.
Qed.
End result_loops.

(** ** Paragraphs *)

Section paragraphs.
Import PyStr basic_scraping.

(** C9.  For a parsed document, [extract_all_paragraphs] is the list of the
    trimmed texts of the [p] tags, in document order, with the empty ones
    left out; the tags left out are those whose text is blank, that is,
    empty or made of whitespace characters only; every text returned is
    non-empty and trimmed. *)
Theorem extract_all_paragraphs_trimmed_nonempty (soup : Node) :
  let paragraphs := Soup.find_all ["p"] soup in
  let trimmed := λ p, strip (Soup.text p) in
  extract_all_paragraphs (Some soup)
    = filter (λ t, t ≠ "") (map trimmed paragraphs)
  ∧ extract_all_paragraphs (Some soup)
    = map trimmed (filter (λ p, is_blank (Soup.text p) = false) paragraphs)
  ∧ (∀ p, is_blank (Soup.text p) = true
          ↔ ∃ l, Forall (λ n, n ∈ whitespace) l ∧ Soup.text p = encode l)
  ∧ Forall (λ t, t ≠ "" ∧ strip t = t) (extract_all_paragraphs (Some soup)).
Proof.
  intros paragraphs trimmed. unfold extract_all_paragraphs.
  fold paragraphs.
  assert (filter (λ p, truthy (strip (Soup.text p)) = true) paragraphs
          = filter (λ p, trimmed p ≠ "") paragraphs) as E1.
  { apply filter_ext_in. intros x _. apply truthy_true. }
  split; [|split; [|split]].
  - rewrite filter_map_comm. by rewrite E1.
  - f_equal. apply filter_ext_in. intros x _.
    rewrite strip_truthy. by destruct (is_blank (Soup.text x)).
  - intros p. apply is_blank_spec.
  - rewrite E1. apply Forall_forall. intros t Ht.
    apply list_elem_of_fmap in Ht as (x & -> & Hx).
    apply list_elem_of_filter in Hx as [Hx _].
    split; [done|]. apply strip_idem.
Qed.

Lemma extract_all_paragraphs_absent : extract_all_paragraphs None = [].
Proof. reflexivity. Qed.

(** A paragraph that holds a no-break space only is left out, and the
    spaces around a text are removed, whatever their kind. *)
Example blank_paragraphs_are_dropped :
  extract_all_paragraphs (Some blank_paragraphs) = ["a b"; "c"].
Proof. by vm_compute. Qed.
End paragraphs.

(** ** Tables *)

Section tables.
Import PyStr table_scraping.

(** The loop over [table_rows] keeps the rows that have a cell. *)
Lemma extract_table_data_rows (table : Node) :
  rows (extract_table_data table)
  = filter (λ row, row ≠ [])
      (map (cell_texts ["td"; "th"]) (table_rows table (table_headers table))).
Proof.
  unfold extract_table_data. simpl.
  rewrite (fold_left_snoc_filter _ (λ tr, cell_texts ["td"; "th"] tr ≠ [])
             (cell_texts ["td"; "th"])).
  - by rewrite filter_map_comm.
  - intros acc tr. by destruct (cell_texts ["td"; "th"] tr).
Qed.

Lemma extract_table_data_headers (table : Node) :
  headers (extract_table_data table) = table_headers table.
Proof. reflexivity. Qed.

(** What the header step does, case by case. *)
Lemma headers_from_header_section (table header_row : Node) :
  Soup.find "thead" table = Some header_row →
  headers (extract_table_data table) = cell_texts ["th"] header_row.
Proof. intros H. simpl. unfold table_headers. by rewrite H. Qed.

Lemma headers_from_first_row (table first_row : Node) :
  Soup.find "thead" table = None →
  Soup.find "tr" table = Some first_row →
  headers (extract_table_data table) = cell_texts ["th"] first_row.
Proof. intros H1 H2. simpl. unfold table_headers. by rewrite H1, H2. Qed.

Lemma headers_of_table_without_rows (table : Node) :
  Soup.find "thead" table = None →
  Soup.find "tr" table = None →
  headers (extract_table_data table) = [].
Proof. intros H1 H2. simpl. unfold table_headers. by rewrite H1, H2. Qed.

(** What the row step does, case by case. *)
Lemma row_source_from_body_section (table tbody : Node) (hs : list string) :
  Soup.find "tbody" table = Some tbody →
  table_rows table hs = Soup.find_all ["tr"] tbody.
Proof. intros H. unfold table_rows. by rewrite H. Qed.

Lemma row_source_without_body_section (table : Node) (hs : list string) :
  Soup.find "tbody" table = None →
  table_rows table hs
  = if decide (hs = []) then Soup.find_all ["tr"] table
    else drop 1 (Soup.find_all ["tr"] table).
Proof. intros H. unfold table_rows. rewrite H. by destruct hs. Qed.

(** Without a header and a body section, a first row with header cells is
    the header and is not a data row. *)
Lemma first_row_header_is_skipped (table first_row : Node) (others : list Node) :
  Soup.find "thead" table = None →
  Soup.find "tbody" table = None →
  Soup.find_all ["tr"] table = first_row :: others →
  cell_texts ["th"] first_row ≠ [] →
  headers (extract_table_data table) = cell_texts ["th"] first_row
  ∧ rows (extract_table_data table)
    = filter (λ row, row ≠ []) (map (cell_texts ["td"; "th"]) others).
Proof.
  intros H1 H2 H3 H4.
  assert (table_headers table = cell_texts ["th"] first_row) as Hh.
  { unfold table_headers, Soup.find. unfold Soup.find in H1.
    by rewrite H1, H3. }
  split; [done|].
  rewrite extract_table_data_rows, Hh, row_source_without_body_section by done.
  rewrite decide_False by done. by rewrite H3.
Qed.

(** A row with a header cell has a cell. *)
Lemma header_cell_is_a_cell (tr : Node) :
  cell_texts ["th"] tr ≠ [] → cell_texts ["td"; "th"] tr ≠ [].
Proof.
  unfold cell_texts, Soup.find_all. intros Hth Hcells.
  apply fmap_nil_inv in Hcells.
  destruct (filter (λ d, Soup.has_name ["th"] d = true) (Soup.descendants tr))
    as [|d l] eqn:E; [done|].
  assert (d ∈ d :: l) as Hd by left. rewrite <- E in Hd.
  apply list_elem_of_filter in Hd as [Hname Hd].
  apply (filter_nil_not_elem_of _ _ d Hcells); [|done].
  destruct d as [| |name attrs cs]; [done|done|].
  simpl in Hname |- *. apply bool_decide_eq_true in Hname.
  apply bool_decide_eq_true. apply list_elem_of_singleton in Hname as ->.
  right. by left.
Qed.

(** With a body section and no header section, a first row that has header
    cells and lies in the body section gives the headers and is a data row
    too. *)
Lemma header_row_inside_body_is_returned (table tbody first_row : Node) :
  Soup.find "thead" table = None →
  Soup.find "tbody" table = Some tbody →
  Soup.find "tr" table = Some first_row →
  first_row ∈ Soup.find_all ["tr"] tbody →
  cell_texts ["th"] first_row ≠ [] →
  headers (extract_table_data table) = cell_texts ["th"] first_row
  ∧ cell_texts ["td"; "th"] first_row ∈ rows (extract_table_data table).
Proof.
  intros Hthead Htbody Htr Hin Hth.
  split; [by apply headers_from_first_row|].
  rewrite extract_table_data_rows, (row_source_from_body_section _ tbody) by done.
  apply list_elem_of_filter. split; [by apply header_cell_is_a_cell|].
  apply list_elem_of_fmap. by exists first_row.
Qed.

(** C1.  On a table whose first row holds the header cells and lies in the
    body section, the first row is taken for the header and is returned
    among the data rows as well: the row is skipped only on the path
    without a body section. *)
Theorem header_row_in_body_is_also_a_data_row :
  Soup.find "thead" header_row_in_body = None
  ∧ Soup.find "tr" header_row_in_body = Some (Element "tr" ∅ [cell "th" "H"])
  ∧ extract_table_data header_row_in_body
    = {| headers := ["H"]; rows := [["H"]; ["a"]] |}.
Proof. by vm_compute. Qed.

(** The same skip, one row by position, removes a data row when the header
    section has no row of its own. *)
Example data_row_skipped_for_header_section :
  extract_table_data header_section_without_row
  = {| headers := ["H"]; rows := [] |}.
Proof. by vm_compute. Qed.

(** C8.  The rows of the record are the cell lists of the rows the loop
    runs over, in order, without the empty ones; a cell list is made of
    the trimmed texts of the [td] and [th] tags of the row; so every row
    returned is non-empty and made of trimmed texts, and every row of the
    source that has a cell is returned, whatever the number of headers. *)
Theorem extract_table_rows_invariant (table : Node) :
  let record := extract_table_data table in
  let source := table_rows table (headers record) in
  let cells := cell_texts ["td"; "th"] in
  rows record = filter (λ row, row ≠ []) (map cells source)
  ∧ (∀ tr, cells tr
           = map (λ c, strip (Soup.text c))
               (filter (λ d, Soup.has_name ["td"] d = true
                             ∨ Soup.has_name ["th"] d = true)
                  (Soup.descendants tr)))
  ∧ Forall (λ row, row ≠ [] ∧ Forall (λ c, strip c = c) row) (rows record)
  ∧ (∀ tr, tr ∈ source → cells tr ≠ [] → cells tr ∈ rows record).
Proof.
  intros record source cells.
  assert (rows record = filter (λ row, row ≠ []) (map cells source)) as Hrows
    by apply extract_table_data_rows.
  split; [done|]. split; [|split].
  - intros tr. unfold cells, cell_texts, Soup.find_all. f_equal.
    apply filter_ext_in. intros d _. destruct d as [| |name attrs cs]; simpl.
    + intuition discriminate.
    + intuition discriminate.
    + rewrite !bool_decide_eq_true, elem_of_cons, !list_elem_of_singleton.
      reflexivity.
  - rewrite Hrows. apply Forall_forall. intros row Hrow.
    apply list_elem_of_filter in Hrow as [Hne Hrow]. split; [done|].
    apply list_elem_of_fmap in Hrow as (tr & -> & _).
    apply Forall_forall. intros c Hc.
    apply list_elem_of_fmap in Hc as (d & -> & _). apply strip_idem.
  - intros tr Htr Hne. rewrite Hrows.
    apply list_elem_of_filter. split; [done|].
    apply list_elem_of_fmap. by exists tr.
Qed.

(** The no-break spaces around a cell text are trimmed like the others; a
    cell that holds nothing else is an empty text, and still a cell. *)
Example padded_cells_are_trimmed :
  extract_table_data padded_table
  = {| headers := ["H"]; rows := [["x"; ""]] |}.
Proof. by vm_compute. Qed.

(** A row with more cells than there are headers is kept as it is. *)
Example longer_row_is_kept :
  extract_table_data ragged_table
  = {| headers := ["H"]; rows := [["a"; "b"; "c"]] |}.
Proof. by vm_compute. Qed.

Lemma extract_table_rows_invariant_witness :
  ["a"; "b"; "c"] ∈ rows (extract_table_data ragged_table)
  ∧ length (headers (extract_table_data ragged_table)) = 1.
Proof.
  destruct (extract_table_rows_invariant ragged_table) as (_ & _ & _ & Hkept).
  split; [|reflexivity].
  apply (Hkept (Element "tr" ∅ [cell "td" " a "; cell "td" "b"; cell "th" "c"])).
  - vm_compute. apply list_elem_of_here.
  - by vm_compute.
Defined.
End tables.

(** ** Rows as dictionaries *)

Section dictionaries.
Import PyStr table_scraping.

Lemma enumerate_snoc {A} (l : list A) (x : A) :
  enumerate (l ++ [x]) = enumerate l ++ [(length l, x)].
Proof. unfold enumerate. rewrite imap_app. simpl. by rewrite Nat.add_0_r. Qed.

(** One more cell is one more assignment, made last. *)
Lemma row_to_dict_snoc (hs row : list string) (x : string) :
  row_to_dict hs (row ++ [x])
  = <[column_key hs (length row) := x]> (row_to_dict hs row).
Proof. unfold row_to_dict. by rewrite enumerate_snoc, fold_left_app. Qed.

(** The cell at [i] is the value of its key unless a later cell of the row
    has the same key. *)
Lemma row_to_dict_last_write (hs row : list string) (i : nat) (v : string) :
  row !! i = Some v →
  (∀ j, i < j < length row → column_key hs j ≠ column_key hs i) →
  row_to_dict hs row !! column_key hs i = Some v.
Proof.
  induction row as [|x row IH] using rev_ind; intros Hi Hlater; [done|].
  rewrite row_to_dict_snoc. rewrite length_app in Hlater. simpl in Hlater.
  destruct (decide (i = length row)) as [->|Hne].
  - rewrite lookup_app_r, Nat.sub_diag in Hi by lia.
    simpl in Hi. injection Hi as ->. apply lookup_insert_eq.
  - assert (i < length row) as Hlt.
    { apply lookup_lt_Some in Hi. rewrite length_app in Hi. simpl in Hi. lia. }
    rewrite lookup_insert_ne by (apply Hlater; lia).
    apply IH.
    + by rewrite lookup_app_l in Hi.
    + intros j Hj. apply Hlater. lia.
Qed.

(** Every entry of the dictionary comes from the last cell with its key. *)
Lemma row_to_dict_origin (hs row : list string) (k v : string) :
  row_to_dict hs row !! k = Some v →
  ∃ i, row !! i = Some v ∧ column_key hs i = k
       ∧ ∀ j, i < j < length row → column_key hs j ≠ k.
Proof.
  induction row as [|x row IH] using rev_ind; intros Hk; [done|].
  rewrite row_to_dict_snoc in Hk.
  destruct (decide (column_key hs (length row) = k)) as [Heq|Hne].
  - rewrite <- Heq, lookup_insert_eq in Hk. injection Hk as ->.
    exists (length row). split; [|split; [done|]].
    + by rewrite lookup_app_r, Nat.sub_diag by lia.
    + intros j. rewrite length_app. simpl. lia.
  - rewrite lookup_insert_ne in Hk by done.
    destruct (IH Hk) as (i & Hi & Hkey & Hlater).
    exists i. split; [|split; [done|]].
    + apply lookup_app_l_Some, Hi.
    + intros j. rewrite length_app. simpl. intros Hj.
      destruct (decide (j = length row)) as [->|]; [done|].
      apply Hlater. lia.
Qed.

Lemma column_key_cases (hs : list string) (i : nat) :
  column_key hs i
  = if decide (i < length hs) then default "" (hs !! i)
    else "Column_" +:+ pretty (i + 1).
Proof.
  unfold column_key. destruct (decide (i < length hs)) as [Hlt|Hge].
  - apply lookup_lt_is_Some in Hlt as [h ->]. done.
  - by rewrite lookup_ge_None_2 by lia.
Qed.

Lemma table_to_dict_list_rows (table_data : TableRecord) :
  headers table_data ≠ [] →
  table_to_dict_list table_data
  = map (row_to_dict (headers table_data)) (rows table_data).
Proof.
  intros Hh. unfold table_to_dict_list.
  destruct (headers table_data) as [|h hs]; [done|].
  destruct (rows table_data) as [|r rs]; [done|].
  by rewrite fold_left_snoc_map.
Qed.

(** C2, as the code has it.  A record without headers gives no dictionary
    at all.  With headers, there is one dictionary per row, in order; in
    it the cell at index [i] is stored under [headers[i]] when there is
    such a header and under ["Column_" + (i+1)] otherwise, a later cell
    with the same key replacing an earlier one. *)
Theorem table_to_dict_list_keys (table_data : TableRecord) :
  (headers table_data = [] → table_to_dict_list table_data = [])
  ∧ (headers table_data ≠ [] →
     table_to_dict_list table_data
     = map (row_to_dict (headers table_data)) (rows table_data))
  ∧ (∀ hs i,
       column_key hs i
       = if decide (i < length hs) then default "" (hs !! i)
         else "Column_" +:+ pretty (i + 1))
  ∧ (∀ hs row i v,
       row !! i = Some v →
       (∀ j, i < j < length row → column_key hs j ≠ column_key hs i) →
       row_to_dict hs row !! column_key hs i = Some v)
  ∧ (∀ hs row k v,
       row_to_dict hs row !! k = Some v →
       ∃ i, row !! i = Some v ∧ column_key hs i = k
            ∧ ∀ j, i < j < length row → column_key hs j ≠ k)
  ∧ table_to_dict_list
      {| headers := ["Library"; "Purpose"; "Version"];
         rows := [["Requests"; "HTTP Requests"; "2.31.0"]] |}
    = [ {[ "Library" := "Requests"; "Purpose" := "HTTP Requests";
           "Version" := "2.31.0" ]} ].
Proof.
  split; [|split; [|split; [|split; [|split]]]].
  - intros Hh. unfold table_to_dict_list. by rewrite Hh.
  - apply table_to_dict_list_rows.
  - apply column_key_cases.
  - apply row_to_dict_last_write.
  - apply row_to_dict_origin.
  - by vm_compute.
Qed.

Lemma table_to_dict_list_keys_witness :
  table_to_dict_list sample_table
  = [ {[ "Name" := "b"; "Column_3" := "c" ]}; {[ "Name" := "d" ]} ]
  ∧ row_to_dict ["Name"; "Name"] ["a"; "b"; "c"] !! "Name" = Some "b".
Proof.
  destruct (table_to_dict_list_keys sample_table)
    as (_ & Hrows & _ & Hlast & _).
  split.
  - rewrite Hrows by (simpl; discriminate). by vm_compute.
  - apply (Hlast ["Name"; "Name"] ["a"; "b"; "c"] 1 "b"); [reflexivity|].
    simpl. intros j Hj. assert (j = 2) as -> by lia. by vm_compute.
Defined.

(** C2, as it is stated, fails: for a record with rows and no headers the
    code returns the empty list, so there is no dictionary for its row. *)
Lemma headerless_table_has_no_dictionary :
  ¬ (∀ table_data row i,
       rows table_data !! i = Some row →
       ∃ d, table_to_dict_list table_data !! i = Some d).
Proof.
  intros H.
  destruct (H {| headers := []; rows := [["a"]] |} ["a"] 0 eq_refl) as [d Hd].
  vm_compute in Hd. discriminate.
Qed.
End dictionaries.

(** ** Metadata *)

Section last_assignment.
Context {S A V : Type}.

(** A loop that assigns a field for the items passing a test, and only for
    them, leaves in the field the value of the last such item. *)
Lemma fold_left_last_wins (step : S → A → S) (field : S → option V)
    (P : A → bool) (c : A → V) :
  (∀ m x, field (step m x) = if P x then Some (c x) else field m) →
  ∀ l m,
    field (fold_left step l m)
    = match last (filter (λ x, P x = true) l) with
      | Some x => Some (c x)
      | None => field m
      end.
Proof.
  intros Hstep l. induction l as [|x l IH]; intros m; [done|].
  simpl. rewrite IH, Hstep, filter_cons.
  destruct (decide (P x = true)) as [HP|HP].
  - rewrite HP, last_cons.
    by destruct (last (filter (λ x, P x = true) l)).
  - by destruct (P x).
Qed.

Lemma fold_left_untouched (step : S → A → S) (field : S → option V) :
  (∀ m x, field (step m x) = field m) →
  ∀ l m, field (fold_left step l m) = field m.
Proof.
  intros Hstep l. induction l as [|x l IH]; intros m; [done|].
  simpl. by rewrite IH.
Qed.
End last_assignment.

Section metadata.
Import PyStr advanced_techniques.
Context `{!Library}.

Lemma meta_step_title m tag : title (meta_step m tag) = title m.
Proof.
  unfold meta_step.
  by repeat match goal with |- context [if ?b then _ else _] => destruct b end.
Qed.

Lemma meta_step_description m tag :
  description (meta_step m tag)
  = if is_description tag then Some (content_of tag) else description m.
Proof.
  unfold meta_step, is_description, named.
  destruct (_ || _); [done|].
  by repeat match goal with |- context [if ?b then _ else _] => destruct b end.
Qed.

Lemma meta_step_keywords m tag :
  keywords (meta_step m tag)
  = if is_keywords tag then Some (content_of tag) else keywords m.
Proof.
  unfold meta_step, is_keywords, is_description, named.
  destruct (_ || _); [done|]. simpl.
  by repeat match goal with |- context [if ?b then _ else _] => destruct b end.
Qed.

Lemma meta_step_author m tag :
  author (meta_step m tag)
  = if is_author tag then Some (content_of tag) else author m.
Proof.
  unfold meta_step, is_author, is_description, named.
  destruct (_ || _); [done|]. simpl.
  destruct (String.eqb (lower (Soup.get_default tag "name" "")) "keywords")
    eqn:Hk.
  - apply String.eqb_eq in Hk. by rewrite Hk.
  - by destruct (String.eqb _ "author").
Qed.

(** C10.  Without a document, [extract_metadata] returns the record whose
    four fields are absent. *)
Theorem extract_metadata_absent_document :
  extract_metadata None
  = {| title := None; description := None; keywords := None; author := None |}.
Proof. reflexivity. Qed.

(** C4, as the code has it.  The title is the trimmed text of the first
    [title] tag.  Each [meta] tag is given to one field at most: to the
    description when its lower-cased [name] is [description] or its
    lower-cased [property] is [og:description]; otherwise to the keywords
    or to the author by its lower-cased [name].  A field holds the
    content of the last tag given to it, and is absent when there is
    none.  With two tags named [author], the author is the content of the
    second provided the second is not also a description tag. *)
Theorem extract_metadata_last_wins (soup : Node) :
  let metas := Soup.find_all ["meta"] soup in
  let m := extract_metadata (Some soup) in
  title m = (λ t, strip (Soup.text t)) <$> head (Soup.find_all ["title"] soup)
  ∧ description m
    = content_of <$> last (filter (λ t, is_description t = true) metas)
  ∧ keywords m
    = content_of <$> last (filter (λ t, is_keywords t = true) metas)
  ∧ author m
    = content_of <$> last (filter (λ t, is_author t = true) metas)
  ∧ (∀ first second,
       filter (λ t, named "author" t = true) metas = [first; second] →
       is_description second = false →
       author m = Some (content_of second)).
Proof.
  intros metas m.
  set (m0 := match Soup.find "title" soup with
             | Some title_tag =>
                 {| title := Some (strip (Soup.text title_tag));
                    description := None; keywords := None; author := None |}
             | None => no_metadata
             end).
  assert (m = fold_left meta_step metas m0) as Hm by reflexivity.
  assert (description m0 = None ∧ keywords m0 = None ∧ author m0 = None)
    as (Hd0 & Hk0 & Ha0).
  { unfold m0. by destruct (Soup.find "title" soup). }
  assert (author m
          = content_of <$> last (filter (λ t, is_author t = true) metas))
    as Hauthor.
  { rewrite Hm, (fold_left_last_wins meta_step author is_author content_of)
      by apply meta_step_author.
    rewrite Ha0. by destruct (last _). }
  split; [|split; [|split; [|split]]].
  - rewrite Hm, (fold_left_untouched meta_step title) by apply meta_step_title.
    unfold m0, Soup.find. by destruct (head _).
  - rewrite Hm, (fold_left_last_wins meta_step description is_description
                   content_of) by apply meta_step_description.
    rewrite Hd0. by destruct (last _).
  - rewrite Hm, (fold_left_last_wins meta_step keywords is_keywords
                   content_of) by apply meta_step_keywords.
    rewrite Hk0. by destruct (last _).
  - done.
  - intros first second Hnamed Hsecond. rewrite Hauthor.
    assert (filter (λ t, is_author t = true) metas
            = filter (λ t, is_description t = false)
                (filter (λ t, named "author" t = true) metas)) as ->.
    { rewrite list_filter_filter. apply filter_ext_in. intros t _.
      unfold is_author. rewrite andb_true_iff, negb_true_iff. done. }
    rewrite Hnamed, !filter_cons, filter_nil.
    rewrite (decide_True (P := is_description second = false)) by done.
    by destruct (decide (is_description first = false)).
Qed.

End metadata.

Section metadata_examples.
Import PyStr advanced_techniques.

Lemma extract_metadata_last_wins_witness :
  (∀ L : Library, author (extract_metadata (Some two_authors)) = Some "B")
  ∧ (∀ L : Library, title (extract_metadata (Some two_authors)) = Some "Page").
Proof.
  split; intros L;
    destruct (extract_metadata_last_wins two_authors)
      as (Htitle & _ & _ & _ & Hsecond).
  - rewrite (Hsecond
               (Element "meta" {[ "name" := "author"; "content" := "A" ]} [])
               (Element "meta" {[ "name" := "Author"; "content" := "B" ]} []))
      by (by vm_compute).
    by vm_compute.
  - rewrite Htitle. by vm_compute.
Defined.

(** C4, as it is stated, fails: the second of two tags named [author] is
    counted for the description when it carries the [og:description]
    property, and the author stays the content of the first. *)
Lemma second_author_tag_may_not_win :
  ∃ first second,
    ∀ L : Library,
      filter (λ t, named "author" t = true)
        (Soup.find_all ["meta"] author_and_description) = [first; second]
      ∧ content_of second = "B"
      ∧ author (extract_metadata (Some author_and_description)) = Some "A"
      ∧ author (extract_metadata (Some author_and_description))
        ≠ Some (content_of second).
Proof.
  exists (Element "meta" {[ "name" := "author"; "content" := "A" ]} []),
    (Element "meta" {[ "name" := "author"; "property" := "og:description";
                       "content" := "B" ]} []).
  intros L. by vm_compute.
Qed.

(** The [property] is compared without regard to case, like the [name]. *)
Example upper_case_property_is_a_description `{!Library} :
  description
    (extract_metadata
       (Some (Element "[document]" ∅
                [Element "meta" {[ "property" := "OG:Description";
                                   "content" := "X" ]} []])))
  = Some "X".
Proof. by vm_compute. Qed.

(** The title is trimmed of the no-break spaces around it. *)
Example title_between_no_break_spaces `{!Library} :
  title
    (extract_metadata
       (Some (Element "[document]" ∅
                [Element "title" ∅ [Text (nbsp +:+ "Page" +:+ nbsp)]])))
  = Some "Page".
Proof. by vm_compute. Qed.

(** A name that is not ASCII is compared after the case mapping of the
    library: with the Kelvin sign, which Unicode maps to [k], a tag named
    [Keywords] in that spelling is a keywords tag. *)
Example kelvin_sign_keywords `{!Library} :
  unicode_lower (utf8 0x212A +:+ "eywords") = "keywords" →
  keywords
    (extract_metadata
       (Some (Element "[document]" ∅
                [Element "meta" {[ "name" := utf8 0x212A +:+ "eywords";
                                   "content" := "k" ]} []])))
  = Some "k".
Proof.
  intros Hk. unfold extract_metadata, Soup.find.
  change (Soup.find_all ["title"] _) with (@nil Node).
  cbn [head].
  change (Soup.find_all ["meta"] _)
    with [Element "meta" {[ "name" := utf8 0x212A +:+ "eywords";
                            "content" := "k" ]} []].
  cbn [fold_left]. unfold meta_step.
  replace (lower (Soup.get_default _ "name" ""))
    with "keywords" by (symmetry; exact Hk).
  by vm_compute.
Qed.
End metadata_examples.

(** ** Links *)

Section links.
Import PyStr UrlLib links_and_images.
Context `{!Library}.

Lemma has_href_iff (a : Node) :
  has_href a = true ↔ ∃ href, Soup.get a "href" = Some href ∧ href ≠ "".
Proof.
  unfold has_href. destruct (Soup.get a "href") as [href|].
  - rewrite truthy_true. split; [eauto|]. by intros (? & [= <-] & ?).
  - split; [done|]. by intros (? & ? & _).
Qed.

(** The loop of [extract_all_links] goes through the anchors that have a
    non-empty [href], from the first on, and stops when [urljoin]
    raises. *)
Lemma extract_all_links_comprehension (soup : Node) (base_url : string) :
  extract_all_links soup base_url
  = mapM (link_record base_url)
      (filter (λ a, has_href a = true) (Soup.find_all ["a"] soup)).
Proof.
  unfold extract_all_links.
  rewrite (fold_left_collect _ (λ a, has_href a = true)
             (link_record base_url)).
  - by destruct (mapM _ _).
  - intros acc a. unfold has_href, link_record, link_text, Soup.get_default.
    destruct (Soup.get a "href") as [href|]; simpl; [|done].
    destruct (truthy href); [|done].
    rewrite decide_True by done. by destruct (urljoin base_url href).
  - done.
Qed.

Lemma link_record_Ok (base_url : string) (a : Node) (l : Link) :
  link_record base_url a = Ok l
  ↔ urljoin base_url (Soup.get_default a "href" "") = Ok (url l)
    ∧ text l = link_text a.
Proof.
  unfold link_record. rewrite bind_Ok. split.
  - by intros (u & Hu & [= <-]).
  - intros [Hu Ht]. exists (url l). split; [done|]. destruct l. simpl in *.
    by subst.
Qed.

Lemma link_record_ValueError (base_url : string) (a : Node) :
  link_record base_url a = ValueError
  ↔ urljoin base_url (Soup.get_default a "href" "") = ValueError.
Proof.
  unfold link_record. rewrite bind_ValueError. split; [|by left].
  by intros [|(? & _ & ?)].
Qed.

Lemma link_text_cases (a : Node) :
  link_text a = if decide (strip (Soup.text a) = "") then "No text"
                else strip (Soup.text a).
Proof. unfold link_text. by destruct (strip (Soup.text a)). Qed.

(** What [extract_all_links] returns, and when it raises. *)
Lemma extract_all_links_Ok (soup : Node) (base_url : string) links :
  extract_all_links soup base_url = Ok links
  ↔ Forall2 (λ a l, urljoin base_url (Soup.get_default a "href" "") = Ok (url l)
                    ∧ text l = link_text a)
      (filter (λ a, has_href a = true) (Soup.find_all ["a"] soup)) links.
Proof.
  rewrite extract_all_links_comprehension, mapM_Ok.
  split; intros HF; (eapply Forall2_impl; [exact HF|]); intros a l Hal;
    by apply link_record_Ok.
Qed.

Lemma extract_all_links_ValueError (soup : Node) (base_url : string) :
  extract_all_links soup base_url = ValueError
  ↔ ∃ a, a ∈ Soup.find_all ["a"] soup ∧ has_href a = true
         ∧ urljoin base_url (Soup.get_default a "href" "") = ValueError.
Proof.
  rewrite extract_all_links_comprehension, mapM_ValueError.
  split.
  - intros (a & [Hh Ha]%list_elem_of_filter & He%link_record_ValueError). eauto.
  - intros (a & Ha & Hh & He). exists a.
    by rewrite list_elem_of_filter, link_record_ValueError.
Qed.

(** C3, as the code has it.  When [urljoin] accepts the [href] of every
    [a] tag that has a non-empty one, [extract_all_links] returns one
    record for each of these tags, in document order, and none for the
    others; the record holds the [href] joined to the base URL and the
    trimmed text of the tag, or ["No text"] when that is empty.  When
    [urljoin] raises [ValueError] for one of them, so does
    [extract_all_links], and it does in no other case.  The anchor
    [<a href="/about">About</a>] read on [https://example.com/page] gives
    the text [About] and the URL [https://example.com/about]. *)
Theorem extract_all_links_anchors_with_href (soup : Node) (base_url : string) :
  let anchors := Soup.find_all ["a"] soup in
  let with_href := filter (λ a, has_href a = true) anchors in
  let href := λ a, Soup.get_default a "href" "" in
  let trimmed := λ a, strip (Soup.text a) in
  let recorded := λ a l,
    urljoin base_url (href a) = Ok (url l)
    ∧ text l = if decide (trimmed a = "") then "No text" else trimmed a in
  (∀ links,
     extract_all_links soup base_url = Ok links
     ↔ Forall2 recorded with_href links)
  ∧ ((∀ a, a ∈ with_href → urljoin base_url (href a) ≠ ValueError) →
     ∃ links, extract_all_links soup base_url = Ok links
              ∧ Forall2 recorded with_href links)
  ∧ (extract_all_links soup base_url = ValueError
     ↔ ∃ a, a ∈ with_href ∧ urljoin base_url (href a) = ValueError)
  ∧ (∀ a, a ∈ with_href
          ↔ a ∈ anchors ∧ ∃ h, Soup.get a "href" = Some h ∧ h ≠ "" ∧ href a = h)
  ∧ (∀ attrs,
       attrs !! "href" = Some "/about" →
       anchors = [Element "a" attrs [Text "About"]] →
       extract_all_links soup "https://example.com/page"
       = Ok [ {| text := "About"; url := "https://example.com/about" |} ]).
Proof.
  intros anchors with_href href trimmed recorded.
  assert (∀ links,
            extract_all_links soup base_url = Ok links
            ↔ Forall2 recorded with_href links) as Hok.
  { intros links. rewrite extract_all_links_Ok.
    split; intros HF; (eapply Forall2_impl; [exact HF|]); intros a l [Hu Ht];
      (split; [exact Hu|]); rewrite Ht; [|symmetry]; apply link_text_cases. }
  assert (extract_all_links soup base_url = ValueError
          ↔ ∃ a, a ∈ with_href ∧ urljoin base_url (href a) = ValueError)
    as Herr.
  { rewrite extract_all_links_ValueError. unfold with_href.
    split.
    - intros (a & Ha & Hh & He). exists a. by rewrite list_elem_of_filter.
    - intros (a & [Hh Ha]%list_elem_of_filter & He). eauto. }
  split; [done|]. split; [|split; [done|split]].
  - intros Hall.
    destruct (extract_all_links soup base_url) as [links|] eqn:Hlinks.
    + exists links. split; [done|]. by apply Hok.
    + destruct Herr as [(a & Ha & He) _]; [done|]. by destruct (Hall a).
  - intros a. unfold with_href. rewrite list_elem_of_filter, has_href_iff.
    unfold href, Soup.get_default. split.
    + intros [(h & Hh & Hne) Ha]. split; [done|]. exists h. by rewrite Hh.
    + intros [Ha (h & Hh & Hne & _)]. eauto.
  - intros attrs Hhref Hanchors.
    rewrite extract_all_links_comprehension. fold anchors. rewrite Hanchors.
    assert (has_href (Element "a" attrs [Text "About"]) = true) as Hh.
    { unfold has_href. simpl. by rewrite Hhref. }
    rewrite filter_cons, decide_True, filter_nil by done.
    rewrite mapM_cons. unfold link_record, Soup.get_default. simpl.
    rewrite Hhref. by vm_compute.
Qed.

(** The loop of [categorize_links] extends the two lists in step while
    [urlparse] returns. *)
Lemma categorize_loop (base_domain : string) (parsed : Link → ParseResult)
    (links : list Link) (acc : Categorized) :
  Forall (λ l, urlparse (url l) "" = Ok (parsed l)) links →
  fold_left
    (fun categorized link =>
       categorized ← categorized;
       parsed ← urlparse (url link) "";
       if String.eqb (netloc parsed) base_domain
          || negb (truthy (netloc parsed))
       then Ok {| internal := internal categorized ++ [link];
                  external := external categorized |}
       else Ok {| internal := internal categorized;
                  external := external categorized ++ [link] |})
    links (Ok acc)
  = Ok {| internal :=
            internal acc
            ++ filter (λ l, same_site base_domain (parsed l) = true) links;
          external :=
            external acc
            ++ filter (λ l, same_site base_domain (parsed l) = false) links |}.
Proof.
  intros Hall. revert acc. induction Hall as [|l links Hl _ IH]; intros acc.
  - simpl. rewrite !app_nil_r. by destruct acc.
  - cbn [fold_left]. simpl. rewrite Hl. simpl.
    fold (same_site base_domain (parsed l)). rewrite !filter_cons.
    destruct (same_site base_domain (parsed l)); rewrite IH; simpl;
      repeat case_decide; try done; by rewrite <- app_assoc.
Qed.

(** The loop raises when [urlparse] raises for a link. *)
Lemma categorize_loop_ValueError (base_domain : string) (links : list Link)
    (acc : Result Categorized) :
  Exists (λ l, urlparse (url l) "" = ValueError) links →
  fold_left
    (fun categorized link =>
       categorized ← categorized;
       parsed ← urlparse (url link) "";
       if String.eqb (netloc parsed) base_domain
          || negb (truthy (netloc parsed))
       then Ok {| internal := internal categorized ++ [link];
                  external := external categorized |}
       else Ok {| internal := internal categorized;
                  external := external categorized ++ [link] |})
    links acc
  = ValueError.
Proof.
  intros Hex. revert acc. induction Hex as [l links Hl|l links _ IH];
    intros acc; cbn [fold_left].
  - destruct acc as [acc|]; simpl; [rewrite Hl|]; simpl;
      by apply fold_left_ValueError.
  - apply IH.
Qed.

(** Either [urlparse] raises for a link or it returns for all of them. *)
Lemma urlparse_all (links : list Link) :
  Exists (λ l, urlparse (url l) "" = ValueError) links
  ∨ ∃ parsed, Forall (λ l, urlparse (url l) "" = Ok (parsed l)) links.
Proof.
  set (empty := {| scheme := ""; netloc := ""; path := ""; params := "";
                   query := ""; fragment := "" |}).
  set (parsed := λ l, match urlparse (url l) "" with
                      | Ok p => p
                      | ValueError => empty
                      end).
  induction links as [|l links [IH|(parsed' & IH)]].
  - right. by exists parsed.
  - left. by right.
  - destruct (urlparse (url l) "") as [p|] eqn:Hp.
    + right. exists parsed. constructor.
      * unfold parsed. by rewrite Hp.
      * eapply Forall_impl; [exact IH|]. intros l' Hl'. simpl in Hl'.
        unfold parsed. by rewrite Hl'.
    + left. by left.
Qed.

Lemma categorize_links_Ok (parsed : Link → ParseResult) (first : Link)
    (rest : list Link) :
  Forall (λ l, urlparse (url l) "" = Ok (parsed l)) (first :: rest) →
  categorize_links (first :: rest)
  = Ok {| internal :=
            filter (λ l, same_site (netloc (parsed first)) (parsed l) = true)
              (first :: rest);
          external :=
            filter (λ l, same_site (netloc (parsed first)) (parsed l) = false)
              (first :: rest) |}.
Proof.
  intros Hall. unfold categorize_links.
  rewrite (Forall_inv Hall).
  exact (categorize_loop (netloc (parsed first)) parsed (first :: rest)
           {| internal := []; external := [] |} Hall).
Qed.

Lemma categorize_links_ValueError (links : list Link) :
  categorize_links links = ValueError
  ↔ ∃ l, l ∈ links ∧ urlparse (url l) "" = ValueError.
Proof.
  split.
  - intros Herr. destruct links as [|first rest]; [done|].
    destruct (urlparse_all (first :: rest)) as [Hex|(parsed & Hall)].
    + by apply Exists_exists in Hex.
    + by rewrite (categorize_links_Ok parsed) in Herr.
  - intros (l & Hl & Hp). destruct links as [|first rest].
    + by apply elem_of_nil in Hl.
    + unfold categorize_links.
      destruct (urlparse (url first) "") as [base|]; [|done].
      refine (categorize_loop_ValueError (netloc base) (first :: rest)
                (Ok {| internal := []; external := [] |}) _).
      apply Exists_exists. eauto.
Qed.

Lemma same_site_iff (base_domain : string) (parsed : ParseResult) :
  same_site base_domain parsed = true
  ↔ netloc parsed = base_domain ∨ netloc parsed = "".
Proof.
  unfold same_site. rewrite orb_true_iff, String.eqb_eq, negb_true_iff.
  by destruct (netloc parsed); intuition.
Qed.

(** C5, as the code has it.  [categorize_links] of the empty list has two
    empty lists.  Otherwise, when [urlparse] accepts the URL of every
    link, the internal list holds, in order, the links whose network
    location is the one of the first link or is empty, and the external
    list holds the others; when [urlparse] raises [ValueError] for a
    link, so does [categorize_links], and it does in no other case.
    Links to [https://a.com/x] and [https://b.com/y] go to the internal
    and to the external list. *)
Theorem categorize_links_partition :
  categorize_links [] = Ok {| internal := []; external := [] |}
  ∧ (∀ first rest (parsed : Link → ParseResult),
       let links := first :: rest in
       let base_domain := netloc (parsed first) in
       Forall (λ l, urlparse (url l) "" = Ok (parsed l)) links →
       categorize_links links
       = Ok {| internal :=
                 filter (λ l, same_site base_domain (parsed l) = true) links;
               external :=
                 filter (λ l, same_site base_domain (parsed l) = false) links |})
  ∧ (∀ links,
       categorize_links links = ValueError
       ↔ ∃ l, l ∈ links ∧ urlparse (url l) "" = ValueError)
  ∧ (∀ base_domain parsed,
       same_site base_domain parsed = true
       ↔ netloc parsed = base_domain ∨ netloc parsed = "")
  ∧ (∀ t1 t2,
       let l1 := {| text := t1; url := "https://a.com/x" |} in
       let l2 := {| text := t2; url := "https://b.com/y" |} in
       categorize_links [l1; l2]
       = Ok {| internal := [l1]; external := [l2] |}).
Proof.
  split; [done|]. split; [|split; [|split]].
  - intros first rest parsed links base_domain Hall.
    by apply categorize_links_Ok.
  - apply categorize_links_ValueError.
  - apply same_site_iff.
  - intros t1 t2. by vm_compute.
Qed.
End links.

Section links_examples.
Import PyStr UrlLib links_and_images.

Lemma extract_all_links_anchors_with_href_witness :
  (∀ L : Library,
     extract_all_links sample_links "https://example.com/page"
     = Ok [ {| text := "About"; url := "https://example.com/about" |} ])
  ∧ (∀ L : Library,
       extract_all_links about_page "https://example.com/page"
       = Ok [ {| text := "About"; url := "https://example.com/about" |} ]).
Proof.
  split; intros L.
  - destruct (extract_all_links_anchors_with_href sample_links
                "https://example.com/page") as (Hall & _).
    apply Hall. repeat constructor.
  - destruct (extract_all_links_anchors_with_href about_page
                "https://example.com/page") as (_ & _ & _ & _ & Habout).
    apply (Habout {[ "href" := "/about"; "class" := "nav" ]}); by vm_compute.
Defined.

(** C3, as it is stated, fails: an anchor whose [href] opens a bracket
    without closing it has a non-empty [href], and yet the call yields no
    record, for this anchor or for the one before it: it raises. *)
Lemma unclosed_bracket_href_yields_no_record :
  Forall (λ a, has_href a = true) (Soup.find_all ["a"] unclosed_bracket_page)
  ∧ (∀ L : Library,
       extract_all_links unclosed_bracket_page "https://example.com/page"
       = ValueError).
Proof. split; [by repeat constructor|]. intros L. by vm_compute. Qed.

(** An anchor without text is reported as ["No text"], also when it holds
    whitespace of any kind; a fragment is resolved against the page. *)
Example blank_anchor_text `{!Library} :
  extract_all_links
    (Element "[document]" ∅ [Element "a" {[ "href" := "#top" ]} [Text "  "]])
    "https://example.com/page"
  = Ok [ {| text := "No text"; url := "https://example.com/page#top" |} ]
  ∧ extract_all_links nbsp_anchor "https://example.com/page"
    = Ok [ {| text := "No text"; url := "https://example.com/page#top" |} ].
Proof. by vm_compute. Qed.

(** C5, as it is stated, fails: the link that [extract_all_links] returns
    for an [href] with an unclosed bracket, read without a base URL, is
    not put in either list: [categorize_links] raises. *)
Lemma unclosed_bracket_url_is_not_categorized :
  (∀ L : Library,
     extract_all_links unclosed_bracket_anchor ""
     = Ok [ {| text := "x"; url := "http://[::1" |} ])
  ∧ (∀ L : Library,
       categorize_links [ {| text := "x"; url := "http://[::1" |} ]
       = ValueError).
Proof. split; intros L; by vm_compute. Qed.

(** A link without a network location counts as internal, and the first
    link always does. *)
Example relative_link_is_internal `{!Library} :
  categorize_links
    [ {| text := "a"; url := "https://a.com/x" |};
      {| text := "b"; url := "/local#part" |};
      {| text := "c"; url := "https://b.com/y" |};
      {| text := "d"; url := "http://a.com/z" |} ]
  = Ok {| internal := [ {| text := "a"; url := "https://a.com/x" |};
                        {| text := "b"; url := "/local#part" |};
                        {| text := "d"; url := "http://a.com/z" |} ];
          external := [ {| text := "c"; url := "https://b.com/y" |} ] |}.
Proof. by vm_compute. Qed.

(** A bracketed host is accepted when the library takes it for an IPv6
    address, and refused otherwise. *)
Example bracketed_host `{Library0 : !Library} :
  (parsed ← urlparse "http://[::1]:80/x" ""; Ok (netloc parsed))
  = if ipv6_address "::1" then Ok "[::1]:80" else ValueError.
Proof.
  destruct Library0 as [lower v6 safe]. vm_compute.
  by destruct (v6 "::1").
Qed.
End links_examples.

(** ** Selectors *)

Section identifiers.
Import PyStr css_selectors.

(** The characters of a name are neither whitespace nor signs of the
    selector grammar. *)
Lemma ident_char_plain c :
  is_ident_char c = true →
  is_ascii_space c = false ∧ Ascii.eqb c ">" = false ∧ Ascii.eqb c "[" = false.
Proof.
  destruct c as [[] [] [] [] [] [] [] []]; vm_compute; intros; by try done.
Qed.

Lemma ident_start_char c : is_ident_start c = true → is_ident_char c = true.
Proof.
  destruct c as [[] [] [] [] [] [] [] []]; vm_compute; intros; by try done.
Qed.

Lemma is_ident_chars s :
  is_ident s = true → truthy s = true ∧ all_chars is_ident_char s = true.
Proof.
  destruct s as [|c s]; [done|]. simpl.
  intros [Hc Hs]%andb_true_iff. split; [done|].
  by rewrite (ident_start_char c Hc), Hs.
Qed.

Lemma spaced_plain s : all_chars is_ident_char s = true → spaced s = s.
Proof.
  induction s as [|c s IH]; [done|]. simpl.
  intros [Hc Hs]%andb_true_iff.
  destruct (ident_char_plain c Hc) as (_ & -> & _). by rewrite IH.
Qed.

Lemma spaced_append s t : spaced (s +:+ t) = spaced s +:+ spaced t.
Proof.
  induction s as [|c s IH]; [done|]. rewrite append_cons. simpl.
  destruct (Ascii.eqb c ">"); by rewrite IH.
Qed.

(** Reading a name extends the current word by it. *)
Lemma words_from_plain cur s rest :
  all_chars is_ident_char s = true →
  words_from cur (s +:+ rest) = words_from (cur +:+ s) rest.
Proof.
  revert cur. induction s as [|c s IH]; intros cur Hs.
  - by rewrite append_nil_l, append_nil_r.
  - simpl in Hs. apply andb_true_iff in Hs as [Hc Hs].
    rewrite append_cons. simpl.
    destruct (ident_char_plain c Hc) as (-> & _).
    rewrite IH by done. by rewrite append_assoc.
Qed.

Lemma words_of_ident s : is_ident s = true → words s = [s].
Proof.
  intros [Ht Hs]%is_ident_chars. unfold words.
  rewrite <- (append_nil_r s) at 1.
  rewrite words_from_plain, append_nil_l by done. simpl. by rewrite Ht.
Qed.

Lemma cut_bracket_plain s :
  all_chars is_ident_char s = true → cut "[" s = None.
Proof.
  induction s as [|c s IH]; [done|]. simpl.
  intros [Hc Hs]%andb_true_iff.
  destruct (ident_char_plain c Hc) as (_ & _ & ->). by rewrite IH.
Qed.

Lemma parse_compound_shape c r :
  is_ident_start c = true →
  parse_compound (String c r)
  = match cut "[" (String c r) with
    | None => if is_ident (String c r) then Some (TagSel (String c r)) else None
    | Some (tag, r') =>
        match cut "=" r' with
        | Some (attr, r'') =>
            match rcut "]" r'' with
            | Some (v, String _ EmptyString) =>
                if is_ident tag && is_ident attr
                then AttrSel tag attr <$> parse_value v
                else None
            | _ => None
            end
        | None => None
        end
    end.
Proof.
  destruct c as [[] [] [] [] [] [] [] []]; vm_compute is_ident_start;
    intros; by try done.
Qed.

(** A name denotes the selector of the tags of that name. *)
Lemma parse_compound_ident s :
  is_ident s = true → parse_compound s = Some (TagSel s).
Proof.
  intros Hs. destruct (is_ident_chars s Hs) as [_ Hall].
  destruct s as [|c r]; [done|].
  rewrite parse_compound_shape
    by (simpl in Hs; by apply andb_true_iff in Hs as [? _]).
  by rewrite cut_bracket_plain, Hs.
Qed.

Lemma ident_is_not_child_sign s : is_ident s = true → String.eqb s ">" = false.
Proof.
  destruct s as [|c r]; [done|]. simpl. intros [Hc _]%andb_true_iff.
  destruct (ident_char_plain c (ident_start_char c Hc)) as (_ & Hgt & _).
  simpl in Hgt |- *. unfold String.eqb. by rewrite Hgt.
Qed.

Lemma parse_selector_tag s :
  is_ident s = true → parse_selector s = Some (Compound (TagSel s)).
Proof.
  intros Hs. unfold parse_selector.
  rewrite spaced_plain by (by apply is_ident_chars).
  by rewrite words_of_ident, parse_compound_ident.
Qed.
End identifiers.

Section located.
Import PyStr css_selectors.

Lemma located_below_Element p above name attrs cs :
  located_below p above (Element name attrs cs) = located_children p above 0 cs.
Proof.
  simpl. generalize 0. induction cs as [|c cs IH]; intros i; [done|].
  simpl. by rewrite IH.
Qed.

Lemma located_below_leaf p above n :
  Soup.is_element n = false → located_below p above n = [].
Proof. by destruct n. Qed.

(** The elements that [select] looks at are the tags that [find_all]
    looks at, in the same order. *)
Lemma located_elements n :
  ∀ p above,
    map element (located_below p above n)
    = filter (λ d, Soup.is_element d = true) (Soup.descendants n).
Proof.
  induction n as [s|s|name attrs cs IH] using Node_ind; intros p above;
    [done|done|].
  rewrite located_below_Element. simpl. generalize 0.
  induction IH as [|c cs Hc _ IHcs]; intros i; [done|].
  simpl. rewrite !map_app, Hc, IHcs, filter_cons, filter_app.
  by destruct c.
Qed.

Lemma simple_match_tag tag e :
  simple_match (TagSel tag) e = Soup.has_name [tag] e.
Proof.
  destruct e as [| |name attrs cs]; [done|done|]. simpl.
  destruct (String.eqb name tag) eqn:E.
  - apply String.eqb_eq in E as ->. symmetry. apply bool_decide_eq_true.
    by apply list_elem_of_singleton.
  - apply String.eqb_neq in E. symmetry. apply bool_decide_eq_false.
    by rewrite list_elem_of_singleton.
Qed.

Lemma has_name_is_element names d :
  Soup.has_name names d = true → Soup.is_element d = true.
Proof. by destruct d. Qed.

(** C7.  For a tag name, [select_by_tag] finds the tags that [find_all]
    finds, one for one and in the same order; so the two results have the
    same length. *)
Theorem select_by_tag_agrees_with_find_all (soup : Node) (tag : string) :
  is_ident tag = true →
  ∃ found,
    select_by_tag soup tag = Matches found
    ∧ map element found = Soup.find_all [tag] soup
    ∧ length found = length (Soup.find_all [tag] soup).
Proof.
  intros Htag. unfold select_by_tag, select.
  rewrite parse_selector_tag by done. eexists. split; [done|].
  assert (map element
            (filter (λ l, matches (Compound (TagSel tag)) (element l)
                            (ancestors l) = true) (elements soup))
          = Soup.find_all [tag] soup) as Heq.
  { trans (filter (λ e, simple_match (TagSel tag) e = true)
             (map element (elements soup))).
    { by rewrite filter_map_comm. }
    unfold elements. rewrite located_elements, list_filter_filter.
    unfold Soup.find_all. apply filter_ext_in. intros d _.
    rewrite simple_match_tag. split; [by intros []|].
    intros Hd. split; [done|]. by eapply has_name_is_element. }
  split; [done|]. by rewrite <- Heq, length_map.
Qed.

Lemma select_by_tag_agrees_with_find_all_witness :
  ∃ found,
    select_by_tag nested_page "p" = Matches found
    ∧ length found = 2 ∧ length (Soup.find_all ["p"] nested_page) = 2.
Proof.
  destruct (select_by_tag_agrees_with_find_all nested_page "p" eq_refl)
    as (found & Hsel & _ & Hlen).
  exists found. split; [done|]. by rewrite Hlen.
Defined.
End located.

Section positions.
Import PyStr css_selectors.

(** What the children loop collects: each child that is a tag, and what is
    below each child. *)
Lemma elem_of_located_children p above cs i l :
  l ∈ located_children p above i cs
  ↔ ∃ k c, cs !! k = Some c
           ∧ ((Soup.is_element c = true ∧ l = here (p ++ [i + k]) above c)
              ∨ l ∈ located_below (p ++ [i + k]) (c :: above) c).
Proof.
  revert i. induction cs as [|c cs IH]; intros i.
  - simpl. split; [by intros ?%elem_of_nil|]. by intros (k & c & ? & _).
  - simpl. rewrite !elem_of_app, IH. split.
    + intros [Hself|[Hbelow|(k & c' & Hk & Hl)]].
      * exists 0, c. rewrite Nat.add_0_r. split; [done|]. left.
        destruct c; try by apply elem_of_nil in Hself.
        apply list_elem_of_singleton in Hself. by split.
      * exists 0, c. rewrite Nat.add_0_r. split; [done|]. by right.
      * exists (S k), c'. split; [done|].
        by replace (i + S k) with (S i + k) by lia.
    + intros (k & c' & Hk & Hl). destruct k as [|k].
      * simpl in Hk. injection Hk as <-. rewrite Nat.add_0_r in Hl.
        destruct Hl as [[Hc ->]|Hl]; [|by right; left].
        left. destruct c; try done. by apply list_elem_of_singleton.
      * right. right. exists k, c'. split; [done|].
        by replace (S i + k) with (i + S k) by lia.
Qed.

(** Every located element sits at its position and carries the chain of
    the elements above that position. *)
Lemma located_sound n :
  ∀ p above l,
    l ∈ located_below p above n →
    ∃ q, q ≠ [] ∧ at_path l = p ++ q
         ∧ node_at q n = Some (element l)
         ∧ Soup.is_element (element l) = true
         ∧ ancestors l = chain_at q n above.
Proof.
  induction n as [s|s|name attrs cs IH] using Node_ind; intros p above l Hl;
    [by apply elem_of_nil in Hl|by apply elem_of_nil in Hl|].
  rewrite located_below_Element in Hl.
  apply elem_of_located_children in Hl as (k & c & Hk & Hl). simpl in Hl.
  destruct Hl as [[Hc ->]|Hl].
  - exists [k]. simpl. by rewrite Hk.
  - rewrite Forall_lookup in IH.
    destruct (IH k c Hk _ _ _ Hl) as (q & Hq & Hpath & Hnode & Hel & Hanc).
    exists (k :: q). split; [done|]. split; [|split; [|split; [done|]]].
    + by rewrite Hpath, <- app_assoc.
    + simpl. by rewrite Hk.
    + simpl. rewrite Hk. by destruct q.
Qed.

(** Every tag below the document is located, once its position is given. *)
Lemma located_complete q :
  ∀ n p above e,
    q ≠ [] →
    node_at q n = Some e →
    Soup.is_element e = true →
    here (p ++ q) (chain_at q n above) e ∈ located_below p above n.
Proof.
  induction q as [|k q IH]; intros n p above e Hq Hnode He; [done|].
  destruct n as [s|s|name attrs cs]; [done|done|].
  simpl in Hnode. destruct (cs !! k) as [c|] eqn:Hk; [|done].
  rewrite located_below_Element.
  apply elem_of_located_children. exists k, c. split; [done|]. simpl.
  destruct q as [|k' q].
  - left. simpl in Hnode. by injection Hnode as ->.
  - right. rewrite Hk.
    replace (p ++ k :: k' :: q) with ((p ++ [k]) ++ k' :: q)
      by (by rewrite <- app_assoc).
    by apply IH.
Qed.

(** The elements of a document are its tags, each at its position and
    with the chain of the tags above it. *)
Lemma elem_of_elements soup l :
  l ∈ elements soup
  ↔ at_path l ≠ []
    ∧ node_at (at_path l) soup = Some (element l)
    ∧ Soup.is_element (element l) = true
    ∧ ancestors l = chain_at (at_path l) soup [].
Proof.
  unfold elements. split.
  - intros (q & Hq & Hpath & Hnode & Hel & Hanc)%located_sound.
    simpl in Hpath. by rewrite Hpath.
  - intros (Hq & Hnode & Hel & Hanc).
    pose proof (located_complete (at_path l) soup [] [] (element l)
                  Hq Hnode Hel) as Hin.
    simpl in Hin. unfold here in Hin. rewrite <- Hanc in Hin.
    by destruct l.
Qed.

Lemma node_at_app q1 q2 n :
  node_at (q1 ++ q2) n = node_at q1 n ≫= node_at q2.
Proof.
  revert n. induction q1 as [|k q1 IH]; intros n; [done|].
  simpl. destruct n as [| |name attrs cs]; [done|done|].
  destruct (cs !! k); [apply IH|done].
Qed.

(** The parent of a node below the top level is the head of its chain. *)
Lemma chain_at_snoc q :
  ∀ n above e i,
    q ≠ [] →
    node_at q n = Some e →
    chain_at (q ++ [i]) n above = e :: chain_at q n above.
Proof.
  induction q as [|k q IH]; intros n above e i Hq Hnode; [done|].
  destruct n as [s|s|name attrs cs]; [done|done|].
  simpl in Hnode. destruct (cs !! k) as [c|] eqn:Hk; [|done].
  destruct q as [|k' q].
  - simpl in Hnode. injection Hnode as ->. simpl. by rewrite Hk.
  - change ((k :: k' :: q) ++ [i]) with (k :: (k' :: q) ++ [i]).
    simpl chain_at. rewrite Hk.
    change (k' :: q ++ [i]) with ((k' :: q) ++ [i]). by apply IH.
Qed.
End positions.

Section combinators.
Import PyStr css_selectors.

Lemma words_from_space cur rest :
  words_from cur (String " " rest)
  = if truthy cur then cur :: words_from "" rest else words_from "" rest.
Proof. reflexivity. Qed.

Lemma words_child (parent child : string) :
  is_ident parent = true → is_ident child = true →
  words (spaced (parent +:+ " > " +:+ child)) = [parent; ">"; child].
Proof.
  intros [Htp Hap]%is_ident_chars Hc.
  pose proof (words_of_ident child Hc) as Hw. unfold words in Hw.
  apply is_ident_chars in Hc as [Htc Hac].
  rewrite !spaced_append, (spaced_plain parent), (spaced_plain child) by done.
  change (spaced " > ") with "  >  ".
  unfold words. rewrite words_from_plain, append_nil_l by done.
  rewrite !append_cons, append_nil_l.
  rewrite !words_from_space, Htp.
  change (words_from "" (String ">" (String " " (String " " child))))
    with (words_from ">" (String " " (String " " child))).
  rewrite !words_from_space. simpl truthy. cbv iota. by rewrite Hw.
Qed.

Lemma words_nested (parent child : string) :
  is_ident parent = true → is_ident child = true →
  words (spaced (parent +:+ " " +:+ child)) = [parent; child].
Proof.
  intros [Htp Hap]%is_ident_chars Hc.
  pose proof (words_of_ident child Hc) as Hw. unfold words in Hw.
  apply is_ident_chars in Hc as [Htc Hac].
  rewrite !spaced_append, (spaced_plain parent), (spaced_plain child) by done.
  change (spaced " ") with " ".
  unfold words. rewrite words_from_plain, append_nil_l by done.
  rewrite !append_cons, append_nil_l.
  rewrite !words_from_space, Htp. by rewrite Hw.
Qed.

Lemma parse_selector_child (parent child : string) :
  is_ident parent = true → is_ident child = true →
  parse_selector (parent +:+ " > " +:+ child)
  = Some (Combine (Compound (TagSel parent)) Child (TagSel child)).
Proof.
  intros Hp Hc. unfold parse_selector.
  rewrite words_child, parse_compound_ident by done.
  simpl. by rewrite parse_compound_ident.
Qed.

Lemma parse_selector_nested (parent child : string) :
  is_ident parent = true → is_ident child = true →
  parse_selector (parent +:+ " " +:+ child)
  = Some (Combine (Compound (TagSel parent)) Descendant (TagSel child)).
Proof.
  intros Hp Hc. unfold parse_selector.
  rewrite words_nested, parse_compound_ident by done.
  simpl. by rewrite ident_is_not_child_sign, parse_compound_ident.
Qed.

(** The direct-child combinator looks at the parent only. *)
Lemma matches_child (parent child : string) (e : Node) (above : list Node) :
  matches (Combine (Compound (TagSel parent)) Child (TagSel child)) e above
  = true
  ↔ Soup.has_name [child] e = true
    ∧ ∃ par above', above = par :: above'
                    ∧ Soup.has_name [parent] par = true.
Proof.
  simpl. rewrite andb_true_iff, simple_match_tag.
  destruct above as [|par above'].
  - split; [by intros [_ ?]|]. by intros [_ (? & ? & ? & _)].
  - rewrite simple_match_tag. split.
    + intros [? ?]. eauto.
    + by intros [? (? & ? & [= <- <-] & ?)].
Qed.

(** The descendant combinator looks at every element above. *)
Lemma matches_nested (parent child : string) (e : Node) (above : list Node) :
  matches (Combine (Compound (TagSel parent)) Descendant (TagSel child)) e
    above = true
  ↔ Soup.has_name [child] e = true
    ∧ ∃ a, a ∈ above ∧ Soup.has_name [parent] a = true.
Proof.
  simpl. rewrite andb_true_iff, simple_match_tag.
  apply and_iff_compat_l.
  induction above as [|a above IH].
  - split; [done|]. by intros (? & ?%elem_of_nil & _).
  - rewrite orb_true_iff, IH, simple_match_tag. split.
    + intros [Ha|(x & Hx & Hn)].
      * exists a. split; [by left|done].
      * exists x. split; [by right|done].
    + intros (x & [->|Hx]%elem_of_cons & Hn); [by left|].
      right. by exists x.
Qed.

(** What the two selections of the examples return, for tag names. *)
Lemma select_direct_children_spec (soup : Node) (parent child : string) :
  is_ident parent = true → is_ident child = true →
  ∃ direct,
    select_direct_children soup parent child = Matches direct
    ∧ ∀ l, l ∈ direct
           ↔ l ∈ elements soup
             ∧ Soup.has_name [child] (element l) = true
             ∧ ∃ par above', ancestors l = par :: above'
                             ∧ Soup.has_name [parent] par = true.
Proof.
  intros Hp Hc. unfold select_direct_children, select.
  rewrite parse_selector_child by done. eexists. split; [done|].
  intros l. rewrite list_elem_of_filter, matches_child. tauto.
Qed.

Lemma select_nested_elements_spec (soup : Node) (parent child : string) :
  is_ident parent = true → is_ident child = true →
  ∃ nested,
    select_nested_elements soup parent child = Matches nested
    ∧ ∀ l, l ∈ nested
           ↔ l ∈ elements soup
             ∧ Soup.has_name [child] (element l) = true
             ∧ ∃ a, a ∈ ancestors l ∧ Soup.has_name [parent] a = true.
Proof.
  intros Hp Hc. unfold select_nested_elements, select.
  rewrite parse_selector_nested by done. eexists. split; [done|].
  intros l. rewrite list_elem_of_filter, matches_nested. tauto.
Qed.

(** C6.  For tag names, [select_direct_children] returns the tags of the
    child name whose parent has the parent name, and
    [select_nested_elements] those with a tag of the parent name anywhere
    above them.  So a [p] that is a child of a [section] that is a child
    of a [div] is not returned for ["div > p"] and is returned for
    ["div p"]. *)
Theorem child_combinator_excludes_nested (soup : Node) :
  (∀ parent child,
     is_ident parent = true → is_ident child = true →
     ∃ direct nested,
       select_direct_children soup parent child = Matches direct
       ∧ select_nested_elements soup parent child = Matches nested
       ∧ (∀ l, l ∈ direct
               ↔ l ∈ elements soup
                 ∧ Soup.has_name [child] (element l) = true
                 ∧ ∃ par above', ancestors l = par :: above'
                                 ∧ Soup.has_name [parent] par = true)
       ∧ (∀ l, l ∈ nested
               ↔ l ∈ elements soup
                 ∧ Soup.has_name [child] (element l) = true
                 ∧ ∃ a, a ∈ ancestors l ∧ Soup.has_name [parent] a = true))
  ∧ (∀ l, l ∈ elements soup
          ↔ at_path l ≠ []
            ∧ node_at (at_path l) soup = Some (element l)
            ∧ Soup.is_element (element l) = true
            ∧ ancestors l = chain_at (at_path l) soup [])
  ∧ (∀ pd da dc i sa sc j pa pc,
       pd ≠ [] →
       node_at pd soup = Some (Element "div" da dc) →
       dc !! i = Some (Element "section" sa sc) →
       sc !! j = Some (Element "p" pa pc) →
       ∃ direct nested,
         select_direct_children soup "div" "p" = Matches direct
         ∧ select_nested_elements soup "div" "p" = Matches nested
         ∧ ((pd ++ [i; j]) ∉ map at_path direct)
         ∧ (pd ++ [i; j]) ∈ map at_path nested).
Proof.
  split; [|split].
  - intros parent child Hp Hc.
    destruct (select_direct_children_spec soup parent child Hp Hc)
      as (direct & Hd & Hdirect).
    destruct (select_nested_elements_spec soup parent child Hp Hc)
      as (nested & Hn & Hnested).
    by exists direct, nested.
  - apply elem_of_elements.
  - intros pd da dc i sa sc j pa pc Hpd Hdiv Hsection Hp.
    destruct (select_direct_children_spec soup "div" "p" eq_refl eq_refl)
      as (direct & Hd & Hdirect).
    destruct (select_nested_elements_spec soup "div" "p" eq_refl eq_refl)
      as (nested & Hn & Hnested).
    exists direct, nested. split; [done|]. split; [done|].
    set (section := Element "section" sa sc).
    set (div := Element "div" da dc).
    set (par := Element "p" pa pc).
    assert (node_at (pd ++ [i]) soup = Some section) as Hat_section.
    { rewrite node_at_app, Hdiv. simpl. by rewrite Hsection. }
    assert (node_at (pd ++ [i; j]) soup = Some par) as Hat_p.
    { replace (pd ++ [i; j]) with ((pd ++ [i]) ++ [j])
        by (by rewrite <- app_assoc).
      rewrite node_at_app, Hat_section. simpl. by rewrite Hp. }
    assert (chain_at (pd ++ [i; j]) soup []
            = section :: div :: chain_at pd soup []) as Hchain.
    { replace (pd ++ [i; j]) with ((pd ++ [i]) ++ [j])
        by (by rewrite <- app_assoc).
      rewrite (chain_at_snoc (pd ++ [i]) soup [] section j);
        [|by destruct pd|done].
      by rewrite (chain_at_snoc pd soup [] div i). }
    split.
    + intros (l & Hpath & Hl)%list_elem_of_fmap.
      apply Hdirect in Hl as (Hel & _ & parent & above' & Hanc & Hname).
      apply elem_of_elements in Hel as (_ & _ & _ & Hanc').
      rewrite <- Hpath, Hchain, Hanc in Hanc'.
      injection Hanc' as -> _. by vm_compute in Hname.
    + apply list_elem_of_fmap.
      exists (here (pd ++ [i; j]) (section :: div :: chain_at pd soup []) par).
      split; [done|]. apply Hnested. split; [|split].
      * apply elem_of_elements. simpl. split; [by destruct pd|]. done.
      * done.
      * exists div. split; [|done]. simpl. right. by left.
Qed.

Lemma child_combinator_excludes_nested_witness :
  ∃ direct nested,
    select_direct_children nested_page "div" "p" = Matches direct
    ∧ select_nested_elements nested_page "div" "p" = Matches nested
    ∧ ([0; 0; 1; 0] ∉ map at_path direct)
    ∧ [0; 0; 1; 0] ∈ map at_path nested.
Proof.
  destruct (child_combinator_excludes_nested nested_page) as (_ & _ & H).
  apply (H [0; 0] ∅
           [Text "x";
            Element "section" ∅ [Element "p" ∅ [Text "a"]];
            Element "p" {[ "class" := "b c" ]} []]
           1 ∅ [Element "p" ∅ [Text "a"]] 0 ∅ [Text "a"]);
    by vm_compute.
Defined.

(** On the sample page, ["div > p"] finds the second [p] only and
    ["div p"] finds both. *)
Example selections_on_nested_page :
  match select_direct_children nested_page "div" "p",
        select_nested_elements nested_page "div" "p" with
  | Matches direct, Matches nested =>
      map at_path direct = [[0; 0; 2]]
      ∧ map at_path nested = [[0; 0; 1; 0]; [0; 0; 2]]
  | _, _ => False
  end.
Proof. by vm_compute. Qed.

Example unsupported_selector :
  select nested_page "p:first-child" = UnsupportedSelectorError.
Proof. by vm_compute. Qed.
End combinators.

(** ** The tags below a tag *)

Section below.

Lemma sublist_filter_mono {A} (P : A → Prop) `{!∀ x, Decision (P x)}
    (l1 l2 : list A) :
  l1 `sublist_of` l2 → filter P l1 `sublist_of` filter P l2.
Proof.
  induction 1 as [|x l1 l2 _ IH|x l1 l2 _ IH]; [done| |].
  - rewrite !filter_cons. destruct (decide (P x)); [by constructor|done].
  - rewrite filter_cons. destruct (decide (P x)); [by constructor|done].
Qed.

(** What is below a node below [n] is below [n], in the same order. *)
Lemma descendants_sublist (n : Node) :
  ∀ d, d ∈ Soup.descendants n →
       Soup.descendants d `sublist_of` Soup.descendants n.
Proof.
  induction n as [s|s|name attrs cs IH] using Node_ind; intros d Hd;
    [by apply elem_of_nil in Hd|by apply elem_of_nil in Hd|].
  simpl in Hd |- *.
  induction IH as [|c cs Hc _ IHcs]; [by apply elem_of_nil in Hd|].
  simpl in Hd |- *.
  apply elem_of_cons in Hd as [->|[Hd|Hd]%elem_of_app].
  - apply sublist_cons, sublist_inserts_r. reflexivity.
  - apply sublist_cons, sublist_inserts_r. by apply Hc.
  - apply sublist_cons, sublist_inserts_l. by apply IHcs.
Qed.

Lemma find_all_sublist (names names' : list string) (n d : Node) :
  d ∈ Soup.find_all names' n →
  Soup.find_all names d `sublist_of` Soup.find_all names n.
Proof.
  intros [_ Hd]%list_elem_of_filter.
  by apply sublist_filter_mono, descendants_sublist.
Qed.

Lemma find_elem_of (name : string) (n d : Node) :
  Soup.find name n = Some d → d ∈ Soup.find_all [name] n.
Proof.
  unfold Soup.find. destruct (Soup.find_all [name] n) as [|x l]; [done|].
  intros [= ->]. by left.
Qed.

Lemma find_None (name : string) (n : Node) :
  Soup.find name n = None ↔ Soup.find_all [name] n = [].
Proof. unfold Soup.find. by destruct (Soup.find_all [name] n). Qed.

End below.

(** ** Tables: where the data comes from *)

Section table_sources.
Import PyStr PyDict table_scraping.

Lemma table_rows_sublist (table : Node) (hs : list string) :
  table_rows table hs `sublist_of` Soup.find_all ["tr"] table.
Proof.
  unfold table_rows. destruct (Soup.find "tbody" table) as [tbody|] eqn:Hb.
  - eapply find_all_sublist. by apply find_elem_of.
  - destruct hs; [reflexivity|apply sublist_drop].
Qed.

(** X1.  Every row returned is the cell list of a [tr] tag inside the table
    and every header the trimmed text of a [th] tag inside it; there are at
    most as many rows as [tr] tags, and none for a table without [tr]. *)
Theorem extract_table_data_draws_from_table (table : Node) :
  let record := extract_table_data table in
  (∀ row, row ∈ rows record →
          ∃ tr, tr ∈ Soup.find_all ["tr"] table
                ∧ row = cell_texts ["td"; "th"] tr)
  ∧ (∀ h, h ∈ headers record →
          ∃ th, th ∈ Soup.find_all ["th"] table ∧ h = strip (Soup.text th))
  ∧ (length (rows record) ≤ length (Soup.find_all ["tr"] table))%nat
  ∧ (Soup.find_all ["tr"] table = [] → rows record = []).
Proof.
  intros record.
  pose proof (table_rows_sublist table (table_headers table)) as Hsub.
  assert (rows record
          = filter (λ row, row ≠ [])
              (map (cell_texts ["td"; "th"])
                 (table_rows table (table_headers table)))) as Hrows
    by apply extract_table_data_rows.
  assert (length (rows record) ≤ length (Soup.find_all ["tr"] table))%nat
    as Hlen.
  { rewrite Hrows. etrans; [apply length_filter|].
    rewrite length_map. by apply sublist_length. }
  split; [|split; [|split; [done|]]].
  - intros row Hrow. rewrite Hrows in Hrow.
    apply list_elem_of_filter in Hrow as [_ Hrow].
    apply list_elem_of_fmap in Hrow as (tr & -> & Htr).
    exists tr. split; [|done]. by eapply sublist_subseteq.
  - intros h Hh. change (headers record) with (table_headers table) in Hh.
    unfold table_headers in Hh.
    assert (∀ d name, Soup.find name table = Some d →
                      h ∈ cell_texts ["th"] d →
                      ∃ th, th ∈ Soup.find_all ["th"] table
                            ∧ h = strip (Soup.text th)) as Hin.
    { intros d name Hd Hcell.
      apply list_elem_of_fmap in Hcell as (th & -> & Hth).
      exists th. split; [|done].
      eapply sublist_subseteq; [|done].
      eapply find_all_sublist. by eapply find_elem_of. }
    destruct (Soup.find "thead" table) as [header_row|] eqn:H1; [by eapply Hin|].
    destruct (Soup.find "tr" table) as [first_row|] eqn:H2; [by eapply Hin|].
    by apply elem_of_nil in Hh.
  - intros Hnone. rewrite Hnone in Hlen.
    destruct (rows record); [done|]. simpl in Hlen. lia.
Qed.

Lemma extract_table_data_draws_from_table_witness :
  rows (extract_table_data (Element "table" ∅ [cell "th" "H"])) = [].
Proof.
  destruct (extract_table_data_draws_from_table
              (Element "table" ∅ [cell "th" "H"])) as (_ & _ & _ & Hnone).
  by apply Hnone.
Defined.

(** X2.  The rows of a table that lies inside another are rows of the
    enclosing table as well: without a body section and without headers,
    every [tr] of an inner table that has a cell is returned for the outer
    table. *)
Theorem inner_table_rows_are_outer_rows (table inner tr : Node) :
  Soup.find "tbody" table = None →
  headers (extract_table_data table) = [] →
  inner ∈ Soup.find_all ["table"] table →
  tr ∈ Soup.find_all ["tr"] inner →
  cell_texts ["td"; "th"] tr ≠ [] →
  cell_texts ["td"; "th"] tr ∈ rows (extract_table_data table).
Proof.
  intros Hbody Hheaders Hinner Htr Hcells.
  rewrite extract_table_data_rows.
  change (headers (extract_table_data table)) with (table_headers table)
    in Hheaders.
  rewrite Hheaders, row_source_without_body_section by done. simpl.
  apply list_elem_of_filter. split; [done|].
  apply list_elem_of_fmap. exists tr. split; [done|].
  eapply sublist_subseteq; [|done]. by eapply find_all_sublist.
Qed.

Lemma inner_table_rows_are_outer_rows_witness :
  ["inner"] ∈ rows (extract_table_data table_in_table).
Proof.
  apply (inner_table_rows_are_outer_rows table_in_table
           (Element "table" ∅ [Element "tr" ∅ [cell "td" "inner"]])
           (Element "tr" ∅ [cell "td" "inner"])).
  - reflexivity.
  - reflexivity.
  - vm_compute. apply list_elem_of_here.
  - vm_compute. apply list_elem_of_here.
  - by vm_compute.
Defined.

Lemma fold_left_snoc_enumerate {A B} (g : nat → A → B) (l : list A) :
  ∀ start acc,
    fold_left (λ acc '(i, x), acc ++ [g i x]) (enumerate_from start l) acc
    = acc ++ imap (λ k x, g (start + k) x) l.
Proof.
  unfold enumerate_from.
  induction l as [|x l IH]; intros start acc; simpl.
  - by rewrite app_nil_r.
  - rewrite Nat.add_0_r.
    rewrite (imap_ext _ (λ i y, (S start + i, y)) l)
      by (intros; simpl; f_equal; lia).
    rewrite IH, <- app_assoc. simpl. do 2 f_equal.
    apply imap_ext. intros. simpl. f_equal. lia.
Qed.

Lemma imap_numbers {A B} (num : B → nat) (l : list A) :
  ∀ (g : nat → A → B) start,
    (∀ k x, num (g k x) = start + k) →
    map num (imap g l) = seq start (length l).
Proof.
  induction l as [|x l IH]; intros g start Hnum; [done|].
  simpl. rewrite Hnum, Nat.add_0_r. f_equal.
  apply IH. intros k y. simpl. rewrite Hnum. lia.
Qed.

(** X3.  [extract_all_tables] has one entry for each [table] tag of the
    document, in document order, numbered from 1 without gaps; a table that
    lies inside another table has an entry of its own. *)
Theorem extract_all_tables_numbering (soup : Node) :
  let tables := Soup.find_all ["table"] soup in
  extract_all_tables soup
  = imap (λ k table, {| table_data := extract_table_data table;
                        table_number := S k |}) tables
  ∧ map table_number (extract_all_tables soup) = seq 1 (length tables)
  ∧ (∀ outer inner,
       outer ∈ tables → inner ∈ Soup.find_all ["table"] outer →
       inner ∈ tables).
Proof.
  intros tables.
  assert (extract_all_tables soup
          = imap (λ k table, {| table_data := extract_table_data table;
                                table_number := S k |}) tables) as Heq.
  { unfold extract_all_tables. fold tables.
    by rewrite (fold_left_snoc_enumerate
                  (λ i table, {| table_data := extract_table_data table;
                                 table_number := i |})). }
  split; [done|]. split.
  - rewrite Heq. by apply imap_numbers.
  - intros outer inner Houter Hinner.
    eapply sublist_subseteq; [|done]. by eapply find_all_sublist.
Qed.

Lemma extract_all_tables_numbering_witness :
  map table_number
    (extract_all_tables (Element "[document]" ∅ [table_in_table])) = [1; 2]
  ∧ Element "table" ∅ [Element "tr" ∅ [cell "td" "inner"]]
    ∈ Soup.find_all ["table"] (Element "[document]" ∅ [table_in_table]).
Proof.
  destruct (extract_all_tables_numbering
              (Element "[document]" ∅ [table_in_table]))
    as (_ & Hnum & Hnested).
  split; [by rewrite Hnum|].
  apply (Hnested table_in_table).
  - vm_compute. apply list_elem_of_here.
  - vm_compute. apply list_elem_of_here.
Defined.

End table_sources.

(** ** Rows as dictionaries: what is kept and what is lost *)

Section dictionary_keys.
Import PyStr table_scraping.

Lemma row_keys_snoc (hs : list string) (n : nat) :
  row_keys hs (S n) = row_keys hs n ++ [column_key hs n].
Proof. unfold row_keys. by rewrite seq_S, map_app. Qed.

Lemma row_keys_lookup (hs : list string) (n i : nat) :
  (i < n)%nat → row_keys hs n !! i = Some (column_key hs i).
Proof.
  intros Hi. unfold row_keys.
  by rewrite list_lookup_fmap, lookup_seq_lt.
Qed.

Lemma elem_of_row_keys (hs : list string) (n : nat) (k : string) :
  k ∈ row_keys hs n ↔ ∃ i, (i < n)%nat ∧ column_key hs i = k.
Proof.
  unfold row_keys. rewrite list_elem_of_fmap. split.
  - intros (i & -> & [_ Hi]%elem_of_seq). exists i. split; [lia|done].
  - intros (i & Hi & <-). exists i. split; [done|].
    apply elem_of_seq. lia.
Qed.

(** The keys of the dictionary of a row are the keys assigned. *)
Lemma row_to_dict_keys (hs row : list string) (k : string) :
  is_Some (row_to_dict hs row !! k) ↔ k ∈ row_keys hs (length row).
Proof.
  induction row as [|x row IH] using rev_ind.
  - split; [by intros [? ?]|by intros ?%elem_of_nil].
  - rewrite row_to_dict_snoc, length_app, Nat.add_1_r, row_keys_snoc.
    rewrite elem_of_app, list_elem_of_singleton, <- IH.
    destruct (decide (column_key hs (length row) = k)) as [<-|Hne].
    + rewrite lookup_insert_eq. split; [by right|by eauto].
    + rewrite lookup_insert_ne by done. split; [by left|].
      by intros [?|?].
Qed.

Lemma row_to_dict_size (hs row : list string) :
  (size (row_to_dict hs row) ≤ length row)%nat
  ∧ (size (row_to_dict hs row) = length row
     ↔ NoDup (row_keys hs (length row))).
Proof.
  induction row as [|x row [IHle IHeq]] using rev_ind.
  - split; [done|]. split; [constructor|done].
  - rewrite row_to_dict_snoc, length_app, Nat.add_1_r, row_keys_snoc.
    rewrite map_size_insert, NoDup_app, <- IHeq.
    destruct (row_to_dict hs row !! column_key hs (length row)) as [v|] eqn:Hk.
    + simpl. split; [lia|]. split; [lia|].
      intros (_ & Hfresh & _). exfalso.
      apply (Hfresh (column_key hs (length row))); [|by left].
      apply row_to_dict_keys. by rewrite Hk.
    + simpl. split; [lia|]. split.
      * intros Hsize. split; [lia|]. split; [|apply NoDup_singleton].
        intros k Hin ->%list_elem_of_singleton.
        apply row_to_dict_keys in Hin as [? Hin]. congruence.
      * intros (Hsize & _). lia.
Qed.

Lemma row_to_dict_distinct_keys (hs row : list string) (i : nat) (v : string) :
  NoDup (row_keys hs (length row)) →
  row !! i = Some v →
  row_to_dict hs row !! column_key hs i = Some v.
Proof.
  intros Hdup Hi. apply row_to_dict_last_write; [done|].
  intros j Hj Heq.
  pose proof (lookup_lt_Some _ _ _ Hi) as Hlt.
  assert (j = i); [|lia].
  eapply NoDup_lookup; [done| |].
  - by rewrite row_keys_lookup by lia.
  - rewrite row_keys_lookup by lia. by rewrite Heq.
Qed.

(** X4.  The dictionary of a row never has more entries than the row has
    cells, and it has as many exactly when the keys assigned to the cells
    are pairwise different; in that case every cell is found under its
    key.  So a cell is lost exactly when two cells of the row get the same
    key. *)
Theorem row_to_dict_keeps_all_iff_keys_distinct (hs row : list string) :
  (size (row_to_dict hs row) ≤ length row)%nat
  ∧ (size (row_to_dict hs row) = length row
     ↔ NoDup (row_keys hs (length row)))
  ∧ (∀ k, is_Some (row_to_dict hs row !! k)
          ↔ ∃ i, (i < length row)%nat ∧ column_key hs i = k)
  ∧ (NoDup (row_keys hs (length row)) →
     ∀ i v, row !! i = Some v →
            row_to_dict hs row !! column_key hs i = Some v).
Proof.
  destruct (row_to_dict_size hs row) as [Hle Heq].
  split; [done|]. split; [done|]. split.
  - intros k. by rewrite row_to_dict_keys, elem_of_row_keys.
  - intros Hdup i v. by apply row_to_dict_distinct_keys.
Qed.

Lemma row_to_dict_keeps_all_iff_keys_distinct_witness :
  row_to_dict ["a"; "b"] ["x"; "y"; "z"] !! "Column_3" = Some "z"
  ∧ size (row_to_dict ["a"; "a"] ["x"; "y"]) ≠ 2.
Proof.
  split.
  - destruct (row_to_dict_keeps_all_iff_keys_distinct ["a"; "b"]
                ["x"; "y"; "z"]) as (_ & _ & _ & Hget).
    assert (NoDup (row_keys ["a"; "b"] (length ["x"; "y"; "z"]))) as Hkeys
      by (eapply bool_decide_unpack; by vm_compute).
    by apply (Hget Hkeys 2 "z").
  - destruct (row_to_dict_keeps_all_iff_keys_distinct ["a"; "a"] ["x"; "y"])
      as (_ & Hiff & _).
    intros Hsize. apply Hiff in Hsize.
    apply (NoDup_lookup _ 0 1 "a") in Hsize; [lia|done|done].
Defined.

(** The keys made up for the cells beyond the headers differ from each
    other. *)
Lemma synthesized_keys_differ (hs : list string) (i j : nat) :
  (length hs ≤ i)%nat → (length hs ≤ j)%nat →
  column_key hs i = column_key hs j → i = j.
Proof.
  intros Hi Hj. unfold column_key.
  rewrite !lookup_ge_None_2 by lia.
  intros Heq%(inj (String.app "Column_"))%(inj pretty). lia.
Qed.

Lemma distinct_headers_distinct_keys (hs : list string) (n : nat) :
  NoDup hs →
  (∀ j, (length hs ≤ j < n)%nat → "Column_" +:+ pretty (j + 1)%nat ∉ hs) →
  NoDup (row_keys hs n).
Proof.
  intros Hdup Hfresh. apply NoDup_alt. intros i j k Hi Hj.
  pose proof (lookup_lt_Some _ _ _ Hi) as Hin.
  pose proof (lookup_lt_Some _ _ _ Hj) as Hjn.
  unfold row_keys in Hin, Hjn. rewrite length_map, length_seq in Hin, Hjn.
  rewrite row_keys_lookup in Hi, Hj by done.
  injection Hi as Hi. injection Hj as Hj.
  destruct (decide (i < length hs)%nat) as [Hil|Hil],
           (decide (j < length hs)%nat) as [Hjl|Hjl].
  - apply lookup_lt_is_Some in Hil as [hi Hhi].
    apply lookup_lt_is_Some in Hjl as [hj Hhj].
    unfold column_key in Hi, Hj. rewrite Hhi in Hi. rewrite Hhj in Hj.
    subst. by eapply NoDup_lookup.
  - exfalso. apply (Hfresh j); [lia|].
    apply lookup_lt_is_Some in Hil as [hi Hhi].
    unfold column_key in Hi, Hj. rewrite Hhi in Hi.
    rewrite lookup_ge_None_2 in Hj by lia.
    rewrite Hj, <- Hi. by eapply list_elem_of_lookup_2.
  - exfalso. apply (Hfresh i); [lia|].
    apply lookup_lt_is_Some in Hjl as [hj Hhj].
    unfold column_key in Hi, Hj. rewrite Hhj in Hj.
    rewrite lookup_ge_None_2 in Hi by lia.
    rewrite Hi, <- Hj. by eapply list_elem_of_lookup_2.
  - apply (synthesized_keys_differ hs); [lia|lia|congruence].
Qed.

(** X5.  When the headers are pairwise different, and none of them is one
    of the keys made up for the cells beyond the headers, the dictionaries
    of [table_to_dict_list] lose nothing: the dictionary of a row has one
    entry per cell, a cell under a header is read back under that header,
    a cell beyond the headers under ["Column_" + (i+1)], and a header
    beyond the end of a short row is not a key at all. *)
Theorem table_to_dict_list_round_trip (table_data : TableRecord)
    (k : nat) (row : list string) :
  let hs := headers table_data in
  hs ≠ [] →
  NoDup hs →
  (∀ j, (length hs ≤ j < length row)%nat →
        "Column_" +:+ pretty (j + 1)%nat ∉ hs) →
  rows table_data !! k = Some row →
  ∃ d, table_to_dict_list table_data !! k = Some d
       ∧ size d = length row
       ∧ (∀ i h v, hs !! i = Some h → row !! i = Some v → d !! h = Some v)
       ∧ (∀ i v, (length hs ≤ i)%nat → row !! i = Some v →
                 d !! ("Column_" +:+ pretty (i + 1)%nat) = Some v)
       ∧ (∀ i h, hs !! i = Some h → (length row ≤ i)%nat → d !! h = None).
Proof.
  intros hs Hne Hdup Hfresh Hrow.
  pose proof (distinct_headers_distinct_keys hs (length row) Hdup Hfresh)
    as Hkeys.
  exists (row_to_dict hs row). split; [|split; [|split; [|split]]].
  - rewrite table_to_dict_list_rows by done.
    by rewrite list_lookup_fmap, Hrow.
  - by apply row_to_dict_size.
  - intros i h v Hh Hv.
    pose proof (row_to_dict_distinct_keys hs row i v Hkeys Hv) as Hget.
    unfold column_key in Hget. by rewrite Hh in Hget.
  - intros i v Hi Hv.
    pose proof (row_to_dict_distinct_keys hs row i v Hkeys Hv) as Hget.
    unfold column_key in Hget. by rewrite lookup_ge_None_2 in Hget by lia.
  - intros i h Hh Hi. apply eq_None_not_Some.
    rewrite row_to_dict_keys, elem_of_row_keys. intros (j & Hj & Hkey).
    destruct (decide (j < length hs)%nat) as [Hjl|Hjl].
    + apply lookup_lt_is_Some in Hjl as [hj Hhj].
      unfold column_key in Hkey. rewrite Hhj in Hkey. subst hj.
      pose proof (NoDup_lookup hs j i h Hdup Hhj Hh). lia.
    + apply (Hfresh j); [lia|].
      unfold column_key in Hkey. rewrite lookup_ge_None_2 in Hkey by lia.
      rewrite Hkey. by eapply list_elem_of_lookup_2.
Qed.

Lemma table_to_dict_list_round_trip_witness :
  ∃ d, table_to_dict_list
         {| headers := ["a"; "b"; "c"]; rows := [["x"; "y"]] |} !! 0 = Some d
       ∧ d !! "b" = Some "y" ∧ d !! "c" = None.
Proof.
  destruct (table_to_dict_list_round_trip
              {| headers := ["a"; "b"; "c"]; rows := [["x"; "y"]] |}
              0 ["x"; "y"])
    as (d & Hd & _ & Hget & _ & Hmiss).
  - simpl. discriminate.
  - eapply bool_decide_unpack. by vm_compute.
  - simpl. intros j Hj. lia.
  - reflexivity.
  - exists d. split; [done|]. split.
    + by apply (Hget 1 "b" "y").
    + apply (Hmiss 2 "c"); [done|simpl; lia].
Defined.

(** A header that is spelled like a made-up key takes the cell away. *)
Example header_named_like_a_made_up_key :
  row_to_dict ["Column_2"] ["a"; "b"] = {[ "Column_2" := "b" ]}.
Proof. by vm_compute. Qed.

End dictionary_keys.

(** ** Titles and headings *)

Section dictionaries_in_order.
Import PyDict.
Context {V : Type}.

Lemma dict_get_None (d : dict V) (k : string) :
  dict_get d k = None ↔ k ∉ map fst d.
Proof.
  induction d as [|[k' v] d IH]; simpl.
  - split; [intros _; apply not_elem_of_nil|done].
  - rewrite not_elem_of_cons, <- IH.
    destruct (String.eqb k' k) eqn:E.
    + apply String.eqb_eq in E. split; [done|]. by intros [? _].
    + apply String.eqb_neq in E. split; [by split|by intros [_ ?]].
Qed.

(** Assigning to a key that is not there puts the entry last. *)
Lemma dict_set_fresh (d : dict V) (k : string) (v : V) :
  k ∉ map fst d → dict_set d k v = d ++ [(k, v)].
Proof.
  induction d as [|[k' v'] d IH]; simpl; [done|].
  intros [Hne Hd]%not_elem_of_cons.
  destruct (String.eqb k' k) eqn:E.
  - by apply String.eqb_eq in E.
  - by rewrite IH.
Qed.

Lemma dict_get_cons_ne (d : dict V) (k k' : string) (v : V) :
  k' ≠ k → dict_get ((k', v) :: d) k = dict_get d k.
Proof. intros Hne. simpl. by apply String.eqb_neq in Hne as ->. Qed.

Lemma dict_get_cons_eq (d : dict V) (k : string) (v : V) :
  dict_get ((k, v) :: d) k = Some v.
Proof. simpl. by rewrite String.eqb_refl. Qed.

End dictionaries_in_order.

Section headings.
Import PyStr PyDict basic_scraping.

(** X6.  The title of [extract_metadata] is the text that [extract_title]
    returns, trimmed; [extract_title] itself does not trim, and it returns
    [None] exactly when the document has no [title] tag, or when there is
    no document. *)
Theorem metadata_title_is_trimmed_extract_title `{!Library} (soup : Node) :
  advanced_techniques.title (advanced_techniques.extract_metadata (Some soup))
  = strip <$> extract_title (Some soup)
  ∧ extract_title (Some soup) = Soup.text <$> head (Soup.find_all ["title"] soup)
  ∧ (extract_title (Some soup) = None ↔ Soup.find_all ["title"] soup = [])
  ∧ extract_title None = None.
Proof.
  split; [|split; [|split; [|done]]].
  - unfold advanced_techniques.extract_metadata.
    rewrite (fold_left_untouched advanced_techniques.meta_step
               advanced_techniques.title) by apply meta_step_title.
    unfold extract_title. by destruct (Soup.find "title" soup).
  - unfold extract_title, Soup.find. by destruct (head _).
  - unfold extract_title. rewrite <- find_None.
    by destruct (Soup.find "title" soup).
Qed.

#[local] Instance heading_name_inj : Inj (=) (=) heading_name.
Proof.
  intros i j Heq. unfold heading_name in Heq.
  by apply (inj (String.app "h")), (inj pretty) in Heq.
Qed.

Lemma heading_entry_key (soup : Node) (i : nat) (e : string * list string) :
  heading_entry soup i = Some e →
  e.1 = heading_name i
  ∧ e.2 = heading_texts (Soup.find_all [heading_name i] soup)
  ∧ e.2 ≠ [].
Proof.
  unfold heading_entry.
  destruct (Soup.find_all [heading_name i] soup) as [|t ts]; [done|].
  by intros [= <-].
Qed.

Lemma heading_entries_keys (soup : Node) (levels : list nat) :
  map fst (omap (heading_entry soup) levels) ⊆ map heading_name levels.
Proof.
  intros k (e & -> & (i & Hi & He)%list_elem_of_omap)%list_elem_of_fmap.
  apply heading_entry_key in He as (-> & _).
  apply list_elem_of_fmap. by exists i.
Qed.

(** The loop over the levels builds the entries of the levels that have a
    tag, in the order of the levels. *)
Lemma headings_loop (soup : Node) (levels : list nat) :
  NoDup levels →
  ∀ headings,
    (∀ i, i ∈ levels → heading_name i ∉ map fst headings) →
    fold_left
      (fun headings i =>
         let heading_tags := Soup.find_all [heading_name i] soup in
         match heading_tags with
         | _ :: _ =>
             dict_set headings (heading_name i) (heading_texts heading_tags)
         | [] => headings
         end)
      levels headings
    = headings ++ omap (heading_entry soup) levels.
Proof.
  induction 1 as [|i levels Hi Hdup IH]; intros headings Hfresh.
  - simpl. by rewrite app_nil_r.
  - cbn [fold_left]. cbn beta zeta.
    change (omap (heading_entry soup) (i :: levels))
      with (match heading_entry soup i with
            | Some e => e :: omap (heading_entry soup) levels
            | None => omap (heading_entry soup) levels
            end).
    destruct (Soup.find_all [heading_name i] soup) as [|t ts] eqn:Htags.
    + assert (heading_entry soup i = None) as ->
        by (unfold heading_entry; by rewrite Htags).
      apply IH. intros j Hj. apply Hfresh. by right.
    + assert (heading_entry soup i
              = Some (heading_name i, heading_texts (t :: ts))) as ->
        by (unfold heading_entry; by rewrite Htags).
      rewrite dict_set_fresh by (apply Hfresh; by left).
      rewrite IH, <- app_assoc; [done|].
      intros j Hj. rewrite map_app, not_elem_of_app. split.
      * apply Hfresh. by right.
      * simpl. rewrite list_elem_of_singleton. intros ->%(inj heading_name).
        done.
Qed.

Lemma dict_get_heading_entries (soup : Node) (levels : list nat) (i : nat) :
  NoDup levels → i ∈ levels →
  dict_get (omap (heading_entry soup) levels) (heading_name i)
  = snd <$> heading_entry soup i.
Proof.
  induction 1 as [|j levels Hj Hdup IH]; intros Hi;
    [by apply elem_of_nil in Hi|].
  simpl. apply elem_of_cons in Hi as [->|Hi].
  - destruct (heading_entry soup j) as [[k v]|] eqn:He.
    + apply heading_entry_key in He as (Hk & _). simpl in Hk. subst k.
      by rewrite dict_get_cons_eq.
    + simpl. apply dict_get_None. intros Hin.
      apply heading_entries_keys in Hin.
      apply list_elem_of_fmap in Hin as (j' & ->%(inj heading_name) & Hin).
      done.
  - destruct (heading_entry soup j) as [[k v]|] eqn:He; [|by apply IH].
    apply heading_entry_key in He as (Hk & _). simpl in Hk. subst k.
    rewrite dict_get_cons_ne; [by apply IH|].
    intros ->%(inj heading_name). done.
Qed.

(** X7.  [extract_all_headings] holds, in the order h1 to h6, one entry for
    each level that has a tag and none for the others: a level is a key
    exactly when the document has a tag of that level, its value is the
    list of the trimmed texts of these tags, empty texts included, and no
    value is an empty list. *)
Theorem extract_all_headings_levels (soup : Node) :
  let headings := extract_all_headings (Some soup) in
  headings = omap (heading_entry soup) (seq 1 6)
  ∧ (∀ i, (1 ≤ i ≤ 6)%nat →
          dict_get headings (heading_name i)
          = match Soup.find_all [heading_name i] soup with
            | [] => None
            | heading_tags => Some (heading_texts heading_tags)
            end)
  ∧ (∀ k v, (k, v) ∈ headings →
            v ≠ []
            ∧ ∃ i, (1 ≤ i ≤ 6)%nat ∧ k = heading_name i
                   ∧ length v = length (Soup.find_all [k] soup))
  ∧ NoDup (map fst headings)
  ∧ extract_all_headings None = [].
Proof.
  intros headings.
  assert (headings = omap (heading_entry soup) (seq 1 6)) as Heq.
  { unfold headings, extract_all_headings.
    rewrite headings_loop; [done|apply NoDup_seq|].
    intros i _. apply not_elem_of_nil. }
  split; [done|]. split; [|split; [|split; [|done]]].
  - intros i Hi. rewrite Heq, dict_get_heading_entries;
      [|apply NoDup_seq|apply elem_of_seq; lia].
    unfold heading_entry. by destruct (Soup.find_all _ soup).
  - intros k v Hkv. rewrite Heq in Hkv.
    apply list_elem_of_omap in Hkv as (i & Hi%elem_of_seq & He).
    apply heading_entry_key in He as (Hk & Hv & Hne). simpl in Hk, Hv, Hne.
    split; [done|]. exists i. split; [lia|]. split; [done|].
    subst. unfold heading_texts. by rewrite length_map.
  - rewrite Heq. eapply sublist_NoDup;
      [apply (NoDup_fmap_2 heading_name), (NoDup_seq 1 6)|].
    generalize (seq 1 6). intros levels.
    induction levels as [|i levels IH]; [done|]. simpl.
    destruct (heading_entry soup i) as [e|] eqn:He.
    + apply heading_entry_key in He as (Hk & _).
      cbn [map]. rewrite Hk. by constructor.
    + by constructor.
Qed.

Lemma extract_all_headings_levels_witness :
  dict_get (extract_all_headings (Some sample_headings)) "h2" = Some ["A"; ""]
  ∧ dict_get (extract_all_headings (Some sample_headings)) "h3" = None.
Proof.
  destruct (extract_all_headings_levels sample_headings) as (_ & Hget & _).
  split.
  - change "h2" with (heading_name 2). rewrite (Hget 2) by lia. by vm_compute.
  - change "h3" with (heading_name 3). rewrite (Hget 3) by lia. by vm_compute.
Defined.

(** The order of the entries is the order of the levels, not the order of
    the tags in the document. *)
Example headings_are_ordered_by_level :
  extract_all_headings (Some sample_headings)
  = [("h1", ["B"]); ("h2", ["A"; ""]); ("h4", ["C"])].
Proof. by vm_compute. Qed.

(** The texts of the headings are trimmed of whitespace of any kind. *)
Example padded_heading_is_trimmed :
  extract_all_headings
    (Some (Element "[document]" ∅
             [Element "h1" ∅ [Text (nbsp +:+ " T" +:+ nbsp)]]))
  = [("h1", ["T"])].
Proof. by vm_compute. Qed.

End headings.

Section heading_count.
Import PyStr PyDict basic_scraping.

Lemma has_name_cons (k : string) (ks : list string) (d : Node) :
  Soup.has_name (k :: ks) d = Soup.has_name [k] d || Soup.has_name ks d.
Proof.
  destruct d as [| |name attrs cs]; [done|done|]. simpl.
  apply eq_true_iff_eq.
  rewrite orb_true_iff, !bool_decide_eq_true, elem_of_cons,
    list_elem_of_singleton.
  done.
Qed.

Lemma has_name_exclusive (k : string) (ks : list string) (d : Node) :
  k ∉ ks → Soup.has_name [k] d = true → Soup.has_name ks d = false.
Proof.
  destruct d as [| |name attrs cs]; [done|done|]. simpl.
  intros Hk ->%bool_decide_eq_true%list_elem_of_singleton.
  by apply bool_decide_eq_false.
Qed.

(** Counting the tags of several names is counting them name by name. *)
Lemma find_all_count_by_name (names : list string) (n : Node) :
  NoDup names →
  length (Soup.find_all names n)
  = sum_list (map (λ k, length (Soup.find_all [k] n)) names).
Proof.
  unfold Soup.find_all. generalize (Soup.descendants n). intros ds.
  induction 1 as [|k ks Hk Hdup IH].
  - simpl. induction ds as [|d ds IHds]; [done|].
    rewrite filter_cons. destruct d; by rewrite decide_False by done.
  - simpl. rewrite <- IH. clear IH.
    induction ds as [|d ds IHds]; [done|].
    rewrite !filter_cons, has_name_cons.
    pose proof (has_name_exclusive k ks d Hk) as Hex.
    destruct (Soup.has_name [k] d), (Soup.has_name ks d); simpl;
      repeat case_decide; try done; simpl; try lia;
      by specialize (Hex eq_refl).
Qed.

Lemma heading_entries_count (soup : Node) (levels : list nat) :
  sum_list (map (λ e, length e.2) (omap (heading_entry soup) levels))
  = sum_list
      (map (λ k, length (Soup.find_all [k] soup)) (map heading_name levels)).
Proof.
  induction levels as [|i levels IH]; [done|].
  cbn [map sum_list]. rewrite <- IH.
  change (omap (heading_entry soup) (i :: levels))
    with (match heading_entry soup i with
          | Some e => e :: omap (heading_entry soup) levels
          | None => omap (heading_entry soup) levels
          end).
  unfold heading_entry at 1.
  destruct (Soup.find_all [heading_name i] soup) as [|t ts]; [done|].
  cbn [map sum_list snd]. unfold heading_texts. by rewrite length_map.
Qed.

(** X8.  No heading is dropped or counted twice: the texts returned over
    all levels are as many as the document has tags named h1 to h6. *)
Theorem extract_all_headings_counts_every_heading (soup : Node) :
  sum_list (map (λ e, length e.2) (extract_all_headings (Some soup)))
  = length (Soup.find_all ["h1"; "h2"; "h3"; "h4"; "h5"; "h6"] soup).
Proof.
  change ["h1"; "h2"; "h3"; "h4"; "h5"; "h6"] with (map heading_name (seq 1 6)).
  rewrite find_all_count_by_name
    by apply (NoDup_fmap_2 heading_name), (NoDup_seq 1 6).
  rewrite <- heading_entries_count.
  unfold extract_all_headings.
  rewrite headings_loop; [done|apply NoDup_seq|].
  intros i _. apply not_elem_of_nil.
Qed.

End heading_count.

(** ** Images and links: what every record satisfies *)

Section images.
Import PyStr UrlLib links_and_images.
Context `{!Library}.

(** The loop of [extract_all_images] goes through the images that have a
    non-empty [src], from the first on, and stops when [urljoin]
    raises. *)
Lemma extract_all_images_comprehension (soup : Node) (base_url : string) :
  extract_all_images soup base_url
  = mapM (image_record base_url)
      (filter (λ img, has_src img = true) (Soup.find_all ["img"] soup)).
Proof.
  unfold extract_all_images.
  rewrite (fold_left_collect _ (λ img, has_src img = true)
             (image_record base_url)).
  - by destruct (mapM _ _).
  - intros acc img. unfold has_src, image_record, Soup.get_default.
    destruct (Soup.get img "src") as [s|]; simpl; [|done].
    destruct (truthy s); [|done].
    rewrite decide_True by done. by destruct (urljoin base_url s).
  - done.
Qed.

Lemma image_record_Ok (base_url : string) (img : Node) (i : Image) :
  image_record base_url img = Ok i
  ↔ urljoin base_url (Soup.get_default img "src" "") = Ok (src i)
    ∧ alt i = Soup.get_default img "alt" "No alt text"
    ∧ title i = Soup.get_default img "title" "No title".
Proof.
  unfold image_record. rewrite bind_Ok. split.
  - by intros (u & Hu & [= <-]).
  - intros (Hu & Ha & Ht). exists (src i). split; [done|]. destruct i.
    simpl in *. by subst.
Qed.

Lemma image_record_ValueError (base_url : string) (img : Node) :
  image_record base_url img = ValueError
  ↔ urljoin base_url (Soup.get_default img "src" "") = ValueError.
Proof.
  unfold image_record. rewrite bind_ValueError. split; [|by left].
  by intros [|(? & _ & ?)].
Qed.

(** X9.  When [urljoin] accepts the [src] of every [img] tag that has a
    non-empty one, [extract_all_images] returns one record for each of
    these tags, in document order, and none for the others; when
    [urljoin] raises [ValueError] for one of them, so does
    [extract_all_images], and it does in no other case.  The defaults
    ["No alt text"] and ["No title"] stand in for an attribute that is
    missing, not for one that is empty: an [alt] that is present is
    returned as it is. *)
Theorem extract_all_images_with_src (soup : Node) (base_url : string) :
  let imgs := Soup.find_all ["img"] soup in
  let with_src := filter (λ img, has_src img = true) imgs in
  let source := λ img, Soup.get_default img "src" "" in
  let described := λ img i,
    urljoin base_url (source img) = Ok (src i)
    ∧ alt i = Soup.get_default img "alt" "No alt text"
    ∧ title i = Soup.get_default img "title" "No title" in
  (∀ images,
     extract_all_images soup base_url = Ok images
     ↔ Forall2 described with_src images)
  ∧ (extract_all_images soup base_url = ValueError
     ↔ ∃ img, img ∈ with_src ∧ urljoin base_url (source img) = ValueError)
  ∧ (∀ images,
       extract_all_images soup base_url = Ok images →
       (length images ≤ length imgs)%nat)
  ∧ (∀ img, has_src img = true
            ↔ ∃ s, Soup.get img "src" = Some s ∧ s ≠ "" ∧ source img = s)
  ∧ (∀ img i a, described img i → Soup.get img "alt" = Some a → alt i = a)
  ∧ (∀ img i, described img i → Soup.get img "alt" = None →
              alt i = "No alt text")
  ∧ (∀ img i t, described img i → Soup.get img "title" = Some t →
                title i = t)
  ∧ (∀ img i, described img i → Soup.get img "title" = None →
              title i = "No title").
Proof.
  intros imgs with_src source described.
  split; [|split; [|split; [|split; [|repeat split]]]].
  - intros images. rewrite extract_all_images_comprehension, mapM_Ok.
    split; intros HF; (eapply Forall2_impl; [exact HF|]); intros img i Hi;
      by apply image_record_Ok.
  - rewrite extract_all_images_comprehension, mapM_ValueError.
    split; intros (img & Hin & He); exists img; (split; [done|]);
      by apply image_record_ValueError.
  - intros images Himages.
    rewrite extract_all_images_comprehension in Himages.
    rewrite (mapM_length _ _ _ Himages). apply length_filter.
  - intros img. unfold has_src, source, Soup.get_default.
    destruct (Soup.get img "src") as [s|]; simpl.
    + rewrite truthy_true. split; [eauto|]. by intros (? & [= <-] & ? & _).
    + split; [done|]. by intros (? & ? & _).
  - intros img i a (_ & Ha & _) Hget. rewrite Ha.
    unfold Soup.get_default. by rewrite Hget.
  - intros img i (_ & Ha & _) Hget. rewrite Ha.
    unfold Soup.get_default. by rewrite Hget.
  - intros img i t (_ & _ & Ht) Hget. rewrite Ht.
    unfold Soup.get_default. by rewrite Hget.
  - intros img i (_ & _ & Ht) Hget. rewrite Ht.
    unfold Soup.get_default. by rewrite Hget.
Qed.

(** X10.  [extract_all_links] raises [ValueError] exactly when [urljoin]
    does for the non-empty [href] of an [a] tag.  When it returns, every
    record has a text that is not empty and is trimmed, and there are at
    most as many records as [a] tags, exactly as many when every [a] tag
    has a non-empty [href]. *)
Theorem extract_all_links_texts (soup : Node) (base_url : string) :
  let anchors := Soup.find_all ["a"] soup in
  (extract_all_links soup base_url = ValueError
   ↔ ∃ a, a ∈ anchors ∧ has_href a = true
          ∧ urljoin base_url (Soup.get_default a "href" "") = ValueError)
  ∧ (∀ links,
       extract_all_links soup base_url = Ok links →
       Forall (λ l, text l ≠ "" ∧ strip (text l) = text l) links
       ∧ (length links ≤ length anchors)%nat
       ∧ (Forall (λ a, has_href a = true) anchors →
          length links = length anchors)).
Proof.
  intros anchors. split; [apply extract_all_links_ValueError|].
  intros links Hlinks.
  assert (length links
          = length (filter (λ a, has_href a = true) anchors)) as Hlen.
  { rewrite extract_all_links_comprehension in Hlinks.
    by apply mapM_length in Hlinks. }
  split; [|split].
  - apply extract_all_links_Ok in Hlinks.
    apply Forall_forall. intros l [i Hl]%list_elem_of_lookup.
    destruct (Forall2_lookup_r _ _ _ _ _ Hlinks Hl) as (a & _ & _ & ->).
    unfold link_text.
    destruct (truthy (strip (Soup.text a))) eqn:Ht.
    + split; [by apply truthy_true|apply strip_idem].
    + by vm_compute.
  - rewrite Hlen. apply length_filter.
  - intros Hall. rewrite Hlen. f_equal.
    clear Hlinks Hlen. induction Hall as [|a l Ha _ IH]; [done|].
    by rewrite filter_cons, decide_True, IH by done.
Qed.

(** X11.  [categorize_links] raises [ValueError] exactly when [urlparse]
    does for the URL of a link.  When it returns, it loses and repeats
    nothing: the two lists together are a rearrangement of the input,
    each keeping the input order, and no link is in both.  The first link
    is always the first of the internal list, whatever its URL. *)
Theorem categorize_links_first_and_counts (first : Link) (rest : list Link) :
  (categorize_links (first :: rest) = ValueError
   ↔ ∃ l, l ∈ first :: rest ∧ urlparse (url l) "" = ValueError)
  ∧ (∀ categorized,
       categorize_links (first :: rest) = Ok categorized →
       head (internal categorized) = Some first
       ∧ internal categorized ++ external categorized ≡ₚ first :: rest
       ∧ (length (internal categorized) + length (external categorized)
          = length (first :: rest))%nat
       ∧ internal categorized `sublist_of` first :: rest
       ∧ external categorized `sublist_of` first :: rest
       ∧ (∀ l, l ∈ internal categorized → l ∉ external categorized)).
Proof.
  split; [apply categorize_links_ValueError|].
  intros categorized Hcat.
  destruct (urlparse_all (first :: rest)) as [Hex|(parsed & Hall)].
  { apply Exists_exists, categorize_links_ValueError in Hex. congruence. }
  rewrite (categorize_links_Ok parsed) in Hcat by done.
  injection Hcat as <-.
  set (base_domain := netloc (parsed first)). simpl.
  assert (same_site base_domain (parsed first) = true) as Hfirst.
  { unfold same_site. fold base_domain. by rewrite String.eqb_refl. }
  assert (filter (λ l, same_site base_domain (parsed l) = false) (first :: rest)
          = filter (λ l, ¬ same_site base_domain (parsed l) = true)
              (first :: rest))
    as Hext.
  { apply filter_ext_in. intros l _.
    by destruct (same_site base_domain (parsed l)). }
  assert (filter (λ l, same_site base_domain (parsed l) = true) (first :: rest)
          ++ filter (λ l, same_site base_domain (parsed l) = false)
               (first :: rest)
          ≡ₚ first :: rest) as Hperm.
  { rewrite Hext. apply filter_app_complement. }
  split; [|split; [done|split; [|split; [|split]]]].
  - by rewrite filter_cons, decide_True.
  - by rewrite <- length_app, Hperm.
  - apply sublist_filter.
  - apply sublist_filter.
  - intros l [Hin _]%list_elem_of_filter [Hout _]%list_elem_of_filter.
    congruence.
Qed.
End images.

Section images_examples.
Import PyStr UrlLib links_and_images.

Lemma extract_all_images_with_src_witness :
  (∀ L : Library,
     extract_all_images sample_images "https://example.com/dir/page"
     = Ok [ {| src := "https://example.com/a.png"; alt := "";
               title := "No title" |};
            {| src := "https://example.com/dir/b.png"; alt := "No alt text";
               title := "T" |} ])
  ∧ (∀ L : Library,
       extract_all_images unclosed_bracket_image "https://example.com/"
       = ValueError).
Proof.
  split; intros L.
  - destruct (extract_all_images_with_src sample_images
                "https://example.com/dir/page") as (Hok & _).
    apply Hok. by repeat constructor.
  - destruct (extract_all_images_with_src unclosed_bracket_image
                "https://example.com/") as (_ & Herr & _).
    apply Herr.
    exists (Element "img" {[ "src" := "//[x/a.png" ]} []).
    split; [|by vm_compute].
    apply list_elem_of_filter. split; [by vm_compute|].
    vm_compute. apply list_elem_of_here.
Defined.

Lemma extract_all_links_texts_witness :
  ∃ links,
    ∀ L : Library,
      extract_all_links about_page "https://example.com/page" = Ok links
      ∧ length links = length (Soup.find_all ["a"] about_page).
Proof.
  exists [ {| text := "About"; url := "https://example.com/about" |} ].
  intros L. split; [by vm_compute|].
  destruct (extract_all_links_texts about_page "https://example.com/page")
    as (_ & Hok).
  destruct (Hok [ {| text := "About"; url := "https://example.com/about" |} ])
    as (_ & _ & Hall); [by vm_compute|].
  apply Hall. by repeat constructor.
Defined.

Lemma categorize_links_first_and_counts_witness :
  ∃ categorized,
    ∀ L : Library,
      categorize_links
        [ {| text := "a"; url := "https://a.com/x" |};
          {| text := "c"; url := "https://b.com/y" |} ] = Ok categorized
      ∧ {| text := "c"; url := "https://b.com/y" |} ∉ internal categorized.
Proof.
  exists {| internal := [ {| text := "a"; url := "https://a.com/x" |} ];
            external := [ {| text := "c"; url := "https://b.com/y" |} ] |}.
  intros L. split; [by vm_compute|].
  destruct (categorize_links_first_and_counts
              {| text := "a"; url := "https://a.com/x" |}
              [ {| text := "c"; url := "https://b.com/y" |} ])
    as (_ & Hok).
  destruct (Hok {| internal := [ {| text := "a"; url := "https://a.com/x" |} ];
                   external := [ {| text := "c"; url := "https://b.com/y" |} ] |})
    as (_ & _ & _ & _ & _ & Hone); [by vm_compute|].
  intros Hin. apply (Hone _ Hin). apply list_elem_of_here.
Defined.
End images_examples.

(** ** Requests with pauses *)

Section rate_limiting.
Import PyStr PyDict advanced_techniques.
Context {Delay : Type}.
Variable fetch : nat → string → option Node.
Variable delay : Delay.







End rate_limiting.

(** A run over two URLs, the first of which fails. *)
Example rate_limiting_of_two :
  advanced_techniques.scrape_with_rate_limiting
    (λ i _, if decide (i = 1) then None else Some (Text "page"))
    ["https://a.example/"; "https://b.example/"] 1
  = ([advanced_techniques.Printed "Scraping URL 1/2: https://a.example/";
      advanced_techniques.Requested "https://a.example/";
      advanced_techniques.Slept 1;
      advanced_techniques.Printed "Scraping URL 2/2: https://b.example/";
      advanced_techniques.Requested "https://b.example/"],
     [None; Some (Text "page")]).
Proof. by vm_compute. Qed.

(** ** Metadata: absent and empty fields *)

Section metadata_fields.
Import PyStr advanced_techniques.
Context `{!Library}.

(** The three fields read from the [meta] tags. *)
Lemma extract_metadata_fields (soup : Node) :
  let metas := Soup.find_all ["meta"] soup in
  let m := extract_metadata (Some soup) in
  description m = content_of <$> last (filter (λ t, is_description t = true) metas)
  ∧ keywords m = content_of <$> last (filter (λ t, is_keywords t = true) metas)
  ∧ author m = content_of <$> last (filter (λ t, is_author t = true) metas).
Proof.
  intros metas m. unfold m, extract_metadata. fold metas.
  set (m0 := match Soup.find "title" soup with
             | Some title_tag => _
             | None => _
             end).
  assert (description m0 = None ∧ keywords m0 = None ∧ author m0 = None)
    as (Hd0 & Hk0 & Ha0).
  { unfold m0. by destruct (Soup.find "title" soup). }
  split; [|split].
  - rewrite (fold_left_last_wins meta_step description is_description
               content_of) by apply meta_step_description.
    rewrite Hd0. by destruct (last _).
  - rewrite (fold_left_last_wins meta_step keywords is_keywords content_of)
      by apply meta_step_keywords.
    rewrite Hk0. by destruct (last _).
  - rewrite (fold_left_last_wins meta_step author is_author content_of)
      by apply meta_step_author.
    rewrite Ha0. by destruct (last _).
Qed.

Lemma last_filter_None {A} (P : A → bool) (l : list A) :
  last (filter (λ x, P x = true) l) = None ↔ Forall (λ x, P x = false) l.
Proof.
  rewrite last_None. induction l as [|x l IH]; [by split|].
  rewrite filter_cons, Forall_cons, <- IH.
  destruct (decide (P x = true)) as [HP|HP].
  - rewrite HP. split; [done|]. by intros [? _].
  - apply not_true_is_false in HP. split; [by split|]. by intros [_ ?].
Qed.

(** X13.  A field of the metadata is absent exactly when no [meta] tag is
    given to it; a tag that is given to it and has no [content] attribute
    makes the field the empty string, which is not the same as absent.  A
    document without [meta] tags has the three fields absent. *)
Theorem extract_metadata_absent_or_empty (soup : Node) :
  let metas := Soup.find_all ["meta"] soup in
  let m := extract_metadata (Some soup) in
  (description m = None ↔ Forall (λ t, is_description t = false) metas)
  ∧ (keywords m = None ↔ Forall (λ t, is_keywords t = false) metas)
  ∧ (author m = None ↔ Forall (λ t, is_author t = false) metas)
  ∧ (∀ t, last (filter (λ t, is_description t = true) metas) = Some t →
          Soup.get t "content" = None → description m = Some "")
  ∧ (metas = [] →
     description m = None ∧ keywords m = None ∧ author m = None).
Proof.
  intros metas m.
  destruct (extract_metadata_fields soup) as (Hd & Hk & Ha).
  fold metas m in Hd, Hk, Ha.
  split; [|split; [|split; [|split]]].
  - rewrite Hd, fmap_None. apply (last_filter_None is_description).
  - rewrite Hk, fmap_None. apply (last_filter_None is_keywords).
  - rewrite Ha, fmap_None. apply (last_filter_None is_author).
  - intros t Ht Hc. rewrite Hd, Ht. simpl.
    unfold content_of, Soup.get_default. by rewrite Hc.
  - intros Hnone. rewrite Hd, Hk, Ha, Hnone. done.
Qed.

End metadata_fields.

Section metadata_fields_examples.
Import PyStr advanced_techniques.

Lemma extract_metadata_absent_or_empty_witness :
  (∀ L : Library,
     description
       (extract_metadata
          (Some (Element "[document]" ∅
                   [Element "meta" {[ "name" := "Description" ]} []])))
     = Some "")
  ∧ (∀ L : Library,
       keywords (extract_metadata (Some (Element "[document]" ∅ []))) = None).
Proof.
  split; intros L.
  - destruct (extract_metadata_absent_or_empty
                (Element "[document]" ∅
                   [Element "meta" {[ "name" := "Description" ]} []]))
      as (_ & _ & _ & Hempty & _).
    apply (Hempty (Element "meta" {[ "name" := "Description" ]} []));
      by vm_compute.
  - destruct (extract_metadata_absent_or_empty (Element "[document]" ∅ []))
      as (_ & _ & _ & _ & Hnone).
    by apply Hnone.
Defined.

End metadata_fields_examples.

(** ** Selecting by id and by class *)

Section id_and_class.
Import PyStr css_selectors.

Lemma words_of_marked_ident (mark : ascii) (s : string) :
  is_ascii_space mark = false → is_ident s = true →
  words (String mark s) = [String mark s].
Proof.
  intros Hmark [Ht Hs]%is_ident_chars. unfold words. simpl. rewrite Hmark.
  rewrite <- (append_nil_r s) at 1.
  rewrite words_from_plain by done. simpl.
  by rewrite append_nil_l.
Qed.

Lemma parse_selector_id (id : string) :
  is_ident id = true → parse_selector ("#" +:+ id) = Some (Compound (IdSel id)).
Proof.
  intros Hid. unfold parse_selector.
  change ("#" +:+ id) with (String "#" id). simpl spaced.
  rewrite spaced_plain by (by apply is_ident_chars).
  rewrite words_of_marked_ident by done.
  simpl. by rewrite Hid.
Qed.

Lemma parse_selector_class (class : string) :
  is_ident class = true →
  parse_selector ("." +:+ class) = Some (Compound (ClassSel class)).
Proof.
  intros Hc. unfold parse_selector.
  change ("." +:+ class) with (String "." class). simpl spaced.
  rewrite spaced_plain by (by apply is_ident_chars).
  rewrite words_of_marked_ident by done.
  simpl. by rewrite Hc.
Qed.

Lemma simple_match_id (id : string) (e : Node) :
  simple_match (IdSel id) e = has_id id e.
Proof. by destruct e. Qed.

Lemma simple_match_class (class : string) (e : Node) :
  simple_match (ClassSel class) e = has_class class e.
Proof. by destruct e. Qed.

(** X14.  For an id that is a name, [select_by_id] returns the first tag of
    the document, in document order, whose [id] attribute is that id, and
    [None] exactly when no tag has it; further tags with the same id are
    not returned. *)
Theorem select_by_id_first_match (soup : Node) (id : string) :
  is_ident id = true →
  let with_id := filter (λ l, has_id id (element l) = true) (elements soup) in
  select_by_id soup id = One (head with_id)
  ∧ (select_by_id soup id = One None
     ↔ ∀ l, l ∈ elements soup → Soup.get (element l) "id" ≠ Some id)
  ∧ (∀ l, select_by_id soup id = One (Some l) →
          l ∈ elements soup ∧ Soup.get (element l) "id" = Some id).
Proof.
  intros Hid with_id.
  assert (select_by_id soup id = One (head with_id)) as Heq.
  { unfold select_by_id, select. rewrite parse_selector_id by done.
    simpl. do 2 f_equal. apply filter_ext_in. intros l _.
    by rewrite simple_match_id. }
  split; [done|]. rewrite Heq. split.
  - split.
    + intros [= Hnone] l Hl Hget. apply head_None in Hnone.
      apply (filter_nil_not_elem_of _ _ l Hnone); [|done].
      unfold has_id. by apply bool_decide_eq_true.
    + intros Hnone. f_equal. apply head_None.
      destruct with_id as [|l ls] eqn:Hw; [done|]. exfalso.
      assert (l ∈ with_id) as Hl by (rewrite Hw; left).
      apply list_elem_of_filter in Hl as [Hhas Hl].
      apply (Hnone l Hl). unfold has_id in Hhas.
      by apply bool_decide_eq_true in Hhas.
  - intros l [= Hhead]. apply head_Some_elem_of in Hhead.
    apply list_elem_of_filter in Hhead as [Hhas Hl]. split; [done|].
    unfold has_id in Hhas. by apply bool_decide_eq_true in Hhas.
Qed.

(** X15.  For a class that is a name, [select_by_class] returns the tags
    whose [class] attribute, read as words separated by whitespace, has
    that class among its words, in document order. *)
Theorem select_by_class_words (soup : Node) (class : string) :
  is_ident class = true →
  ∃ found,
    select_by_class soup class = Matches found
    ∧ found = filter (λ l, has_class class (element l) = true) (elements soup)
    ∧ ∀ l, l ∈ found
           ↔ l ∈ elements soup
             ∧ ∃ v, Soup.get (element l) "class" = Some v ∧ class ∈ words v.
Proof.
  intros Hc. eexists. split; [|split; [reflexivity|]].
  - unfold select_by_class, select. rewrite parse_selector_class by done.
    simpl. f_equal. apply filter_ext_in. intros l _.
    by rewrite simple_match_class.
  - intros l. rewrite list_elem_of_filter. unfold has_class.
    destruct (Soup.get (element l) "class") as [v|].
    + rewrite bool_decide_eq_true. split.
      * intros [? ?]. split; [done|]. by exists v.
      * intros [? (v' & [= <-] & ?)]. by split.
    + split; [by intros [? _]|]. by intros [_ (? & ? & _)].
Qed.

Lemma select_by_id_first_match_witness :
  ∃ l, select_by_id tagged_page "x" = One (Some l) ∧ at_path l = [0].
Proof.
  destruct (select_by_id_first_match tagged_page "x" eq_refl) as (Heq & _).
  rewrite Heq. eexists. split; [by vm_compute|reflexivity].
Defined.

Lemma select_by_class_words_witness :
  ∃ found,
    select_by_class tagged_page "b" = Matches found
    ∧ map at_path found = [[0]; [1]].
Proof.
  destruct (select_by_class_words tagged_page "b" eq_refl)
    as (found & Hsel & Hfound & _).
  exists found. split; [done|]. rewrite Hfound. by vm_compute.
Defined.

(** An id that no tag has gives [None], not an error. *)
Example select_by_id_without_match :
  select_by_id tagged_page "y" = One None.
Proof. by vm_compute. Qed.

End id_and_class.

(** ** Tables with a header and a body section *)

Section sectioned_tables.
Import PyStr table_scraping.

(** X16.  For a table with a header section and a body section, the headers
    are the trimmed texts of the [th] tags of the header section and the
    rows are the cell lists of the [tr] tags of the body section, without
    the rows that have no cell; nothing outside the two sections, a footer
    for instance, is read. *)
Theorem sectioned_table_reads_its_sections (table thead tbody : Node) :
  Soup.find "thead" table = Some thead →
  Soup.find "tbody" table = Some tbody →
  extract_table_data table
  = {| headers := cell_texts ["th"] thead;
       rows := filter (λ row, row ≠ [])
                 (map (cell_texts ["td"; "th"]) (Soup.find_all ["tr"] tbody)) |}.
Proof.
  intros Hhead Hbody.
  pose proof (extract_table_data_rows table) as Hrows.
  pose proof (headers_from_header_section table thead Hhead) as Hheaders.
  rewrite (row_source_from_body_section table tbody) in Hrows by done.
  destruct (extract_table_data table) as [hs rs]. simpl in *. by subst.
Qed.

Lemma sectioned_table_reads_its_sections_witness :
  extract_table_data library_table
  = {| headers := ["Library"; "Purpose"; "Version"];
       rows := [["Requests"; "HTTP Requests"; "2.31.0"];
                ["BeautifulSoup4"; "HTML Parsing"; "4.12.0"];
                ["lxml"; "Fast Parser"; "4.9.0"]] |}.
Proof.
  rewrite (sectioned_table_reads_its_sections library_table
             (Element "thead" ∅
                [Element "tr" ∅ [cell "th" "Library"; cell "th" "Purpose";
                                 cell "th" "Version"]])
             (Element "tbody" ∅
                [Element "tr" ∅ [cell "td" "Requests"; cell "td" "HTTP Requests";
                                 cell "td" "2.31.0"];
                 Element "tr" ∅ [cell "td" "BeautifulSoup4";
                                 cell "td" "HTML Parsing"; cell "td" "4.12.0"];
                 Element "tr" ∅ [cell "td" "lxml"; cell "td" "Fast Parser";
                                 cell "td" "4.9.0"]]));
    by vm_compute.
Defined.

End sectioned_tables.
